(** * auto_booking.js: the retry loop of the Wafid booking script

    A shallow embedding of [auto_booking.js].  The script drives one
    Playwright page through a booking form, reads the medical center the
    site assigned, compares it with the configured target and repeats
    until both agree.

    Conventions of the model.
    - A JavaScript string is a [string]: a sequence of code units, here
      restricted to the Latin-1 range (one [ascii] per code unit, code
      units 0..255).  [trim] and [toLowerCase] are modelled exactly on
      that range.  Module [Utf16] has the strings of 16-bit code units,
      with [toLowerCase] for Latin-1 and the Greek sigmas; the Latin-1
      model is its restriction ([matches_units]).
    - The browser and the site are the environment.  What they do during
      one loop iteration is a [Visit]; a run is driven by the list of
      visits the environment offers, so a run that is still looping once
      the list is used up ends in [Running].
    - Every Playwright call and every [console.log] of the script is
      recorded in a trace, newest event first. *)

From Stdlib Require Import ZArith Lia Ascii String.
From stdpp Require Import base strings gmap list.

Local Open Scope Z_scope.

(** ** JavaScript string primitives used at line 54 *)

Module JsString.

(** Code unit of a character. *)
Definition code (c : ascii) : N := N_of_ascii c.

(** WhiteSpace and LineTerminator code units below 256 (ECMAScript
    [String.prototype.trim]): TAB, LF, VT, FF, CR, SP, NBSP. *)
Definition isWhiteSpace (c : ascii) : bool :=
  let n := code c in
  ((9 <=? n) && (n <=? 13) || (n =? 32) || (n =? 160))%N.

(** Code units below 256 that [toLowerCase] changes: A..Z, and
    U+00C0..U+00DE without the multiplication sign U+00D7. *)
Definition isUpper (c : ascii) : bool :=
  let n := code c in
  ((65 <=? n) && (n <=? 90)
   || (192 <=? n) && (n <=? 222) && negb (n =? 215))%N.

Definition toLowerChar (c : ascii) : ascii :=
  if isUpper c then ascii_of_N (code c + 32) else c.

Fixpoint toLowerCase (s : string) : string :=
  match s with
  | EmptyString => EmptyString
  | String c s' => String (toLowerChar c) (toLowerCase s')
  end.

Fixpoint trimStart (s : string) : string :=
  match s with
  | EmptyString => EmptyString
  | String c s' => if isWhiteSpace c then trimStart s' else s
  end.

Fixpoint trimEnd (s : string) : string :=
  match s with
  | EmptyString => EmptyString
  | String c s' =>
      match trimEnd s' with
      | EmptyString =>
          if isWhiteSpace c then EmptyString else String c EmptyString
      | r => String c r
      end
  end.

Definition trim (s : string) : string := trimEnd (trimStart s).

(** Strict equality [===] of two strings. *)
Definition strictEq (s t : string) : bool := String.eqb s t.

End JsString.

Import JsString.

(** Line 54: the comparison deciding an attempt,
    [assignedCenter.trim().toLowerCase() ===
     targetMedicalCenterName.trim().toLowerCase()]. *)
Definition matches (assignedCenter targetMedicalCenterName : string) : bool :=
  strictEq (toLowerCase (trim assignedCenter))
           (toLowerCase (trim targetMedicalCenterName)).

(** ** Configuration (lines 5-13) *)

Record Config := mkConfig {
  passportNumber : string;
  firstName : string;
  lastName : string;
  dob : string;
  country : string;
  city : string;
  targetMedicalCenterName : string;
  targetMedicalCenterId : string;
  bookingUrl : string
}.

(** The values the script ships with. *)
Definition config : Config := {|
  passportNumber := "YOUR_PASSPORT_NUMBER";
  firstName := "YOUR_FIRST_NAME";
  lastName := "YOUR_LAST_NAME";
  dob := "YYYY-MM-DD";
  country := "BD";
  city := "2059";
  targetMedicalCenterName := "BENGAL MEDICAL CENTER";
  targetMedicalCenterId := "10696";
  bookingUrl := "https://wafid.com/book-appointment/"
|}.

(** ** Selectors (lines 23-34 and 49) *)

Module Selector.
Definition dquote : string := String "034"%char EmptyString.
(** [input[name="n"]] *)
Definition inputNamed (n : string) : string :=
  "input[name=" +:+ dquote +:+ n +:+ dquote +:+ "]".
Definition passport : string := inputNamed "passport".
Definition first_name : string := inputNamed "first_name".
Definition last_name : string := inputNamed "last_name".
Definition dob : string := inputNamed "dob".
Definition id_country : string := "#id_country".
Definition id_city : string := "#id_city".
Definition id_medical_center : string := "#id_medical_center".
(** [button[type="submit"]] *)
Definition submit : string :=
  "button[type=" +:+ dquote +:+ "submit" +:+ dquote +:+ "]".
Definition assigned_center : string := ".assigned-center-selector".
End Selector.

(** ** The environment: browser and site *)

(** Settlement of [page.textContent(selector)]: it resolves with the
    text, resolves with [null], or rejects because no element shows up. *)
Inductive TextContent :=
| Text (s : string)
| Null
| NoElement.

(** What the navigation started by the click does while [page.click]
    itself waits for it: the click returns without having seen one
    commit, the navigation commits to a URL before the click returns, or
    it outlasts the click's own timeout. *)
Inductive AfterClick :=
| Stays
| Lands (u : string)
| Hangs.

Definition hangs (a : AfterClick) : bool :=
  match a with
  | Hangs => true
  | _ => false
  end.

(** What the environment does during one loop iteration. *)
Record Visit := mkVisit {
  (** [page.goto(bookingUrl)] resolves *)
  gotoLoads : bool;
  (** what loading the site does to the cookies and storage the browser
      holds for it *)
  siteWrites : gmap string string -> gmap string string;
  (** the selector resolves to a control of the loaded form *)
  hasControl : string -> bool;
  (** the select addressed by the selector offers the value *)
  hasOption : string -> string -> bool;
  (** what [page.click] sees of the navigation it starts *)
  afterClick : AfterClick;
  (** the URL of the navigation that completes during the wait of
      line 35, [None] when the wait elapses *)
  navigatesTo : option string;
  (** settlement of [textContent] per selector on the page reached *)
  textOf : string -> TextContent
}.

Record Proxy := mkProxy { server : string }.

(** The options object of [chromium.launch]. *)
Record LaunchOptions := mkLaunchOptions {
  headless : bool;
  proxy : option Proxy
}.

(** Line 16: [{ headless: false }], no [proxy] key. *)
Definition launchOptions : LaunchOptions :=
  {| headless := false; proxy := None |}.

Record Page := mkPage {
  url : string;
  (** current values of the form controls, by selector *)
  form : gmap string string;
  (** cookies, cache, localStorage and sessionStorage of the browser
      context the page lives in *)
  storage : gmap string string
}.

(** A request leaving the browser, with the proxy it goes through. *)
Inductive Request :=
| PageLoad (via : option Proxy) (target : string)
| FormSubmit (via : option Proxy) (fields : gmap string string).

(** The four [console.log] lines of the script (lines 43, 51, 57, 60),
    with the values interpolated into them. *)
Inductive LogLine :=
| LogAttempt (attempt : Z)
| LogCouldNotFind
| LogMatched (paymentUrl : string)
| LogMismatch (assignedCenter targetName : string).

Inductive Event :=
| Launch (options : LaunchOptions)
| NewPage
| Goto (target : string)
| Fill (selector value : string)
| SelectOption (selector value : string)
| Click (selector : string)
| WaitForNavigation (timeout : Z)
| TextContentOf (selector : string)
| WaitForTimeout
| Close
| Log (line : LogLine).

Inductive Exception :=
| NavigationError
| TimeoutError (call : Event)
| TypeError.

Record World := mkWorld {
  (** proxy every request of the launched browser goes through *)
  egress : option Proxy;
  page : Page;
  (** calls and log lines so far, newest first *)
  trace : list Event;
  (** requests sent so far, newest first *)
  requests : list Request
}.

Definition emitted (e : Event) (w : World) : World :=
  {| egress := egress w; page := page w;
     trace := e :: trace w; requests := requests w |}.

Definition sent (r : Request) (w : World) : World :=
  {| egress := egress w; page := page w;
     trace := trace w; requests := r :: requests w |}.

Definition showing (p : Page) (w : World) : World :=
  {| egress := egress w; page := p;
     trace := trace w; requests := requests w |}.

(** ** The script monad: state passing with exceptions *)

Inductive Result (A : Type) :=
| Ok (a : A) (w : World)
| Throw (e : Exception) (w : World).
Arguments Ok {A} a w.
Arguments Throw {A} e w.

Definition Script (A : Type) : Type := World -> Result A.

Definition ret {A} (a : A) : Script A := fun w => Ok a w.

Definition throw {A} (e : Exception) : Script A := fun w => Throw e w.

Definition bind {A B} (m : Script A) (k : A -> Script B) : Script B :=
  fun w => match m w with
           | Ok a w' => k a w'
           | Throw e w' => Throw e w'
           end.

(** [try { m } catch { h }] *)
Definition tryCatch {A} (m h : Script A) : Script A :=
  fun w => match m w with
           | Ok a w' => Ok a w'
           | Throw _ w' => h w'
           end.

Declare Scope script_scope.
Delimit Scope script_scope with script.
Notation "x <- m ;; k" := (bind m (fun x => k))
  (at level 100, m at next level, right associativity) : script_scope.
Notation "m ;; k" := (bind m (fun _ => k))
  (at level 100, right associativity) : script_scope.
Local Open Scope script_scope.

(** ** The Playwright calls the script makes *)

Definition call (e : Event) : Script unit := fun w => Ok tt (emitted e w).

Definition log (l : LogLine) : Script unit := call (Log l).

(** [chromium.launch(options)] then [browser.newPage()]: a blank page in
    a browser context with nothing stored. *)
Definition launch (options : LaunchOptions) : World :=
  {| egress := proxy options;
     page := {| url := "about:blank"; form := ∅; storage := ∅ |};
     trace := [Launch options];
     requests := [] |}.

Definition newPage (w : World) : World := emitted NewPage w.

(** [page.goto(u)]: a new document, so the form starts empty; what the
    browser context stores is kept and handed to the site. *)
Definition goto (v : Visit) (u : string) : Script unit :=
  fun w =>
    let w1 := sent (PageLoad (egress w) u) (emitted (Goto u) w) in
    if gotoLoads v then
      Ok tt (showing {| url := u; form := ∅;
                        storage := siteWrites v (storage (page w)) |} w1)
    else Throw NavigationError w1.

Definition fill (v : Visit) (selector value : string) : Script unit :=
  fun w =>
    let w1 := emitted (Fill selector value) w in
    if hasControl v selector then
      Ok tt (showing {| url := url (page w);
                        form := <[selector := value]> (form (page w));
                        storage := storage (page w) |} w1)
    else Throw (TimeoutError (Fill selector value)) w1.

Definition selectOption (v : Visit) (selector value : string) : Script unit :=
  fun w =>
    let w1 := emitted (SelectOption selector value) w in
    if hasOption v selector value then
      Ok tt (showing {| url := url (page w);
                        form := <[selector := value]> (form (page w));
                        storage := storage (page w) |} w1)
    else Throw (TimeoutError (SelectOption selector value)) w1.

(** Clicking the submit button sends the form as it stands; the click
    then waits for the navigation it started, so it may leave the result
    page loaded, or time out itself once the form has gone. *)
Definition click (v : Visit) (selector : string) : Script unit :=
  fun w =>
    let w1 := emitted (Click selector) w in
    if hasControl v selector then
      let w2 := sent (FormSubmit (egress w) (form (page w))) w1 in
      match afterClick v with
      | Stays => Ok tt w2
      | Lands u =>
          Ok tt (showing {| url := u; form := ∅;
                            storage := storage (page w) |} w2)
      | Hangs => Throw (TimeoutError (Click selector)) w2
      end
    else Throw (TimeoutError (Click selector)) w1.

Definition waitForNavigation (v : Visit) (timeout : Z) : Script unit :=
  fun w =>
    let w1 := emitted (WaitForNavigation timeout) w in
    match navigatesTo v with
    | Some u =>
        Ok tt (showing {| url := u; form := ∅;
                          storage := storage (page w) |} w1)
    | None => Throw (TimeoutError (WaitForNavigation timeout)) w1
    end.

(** [null | string] is [option string]. *)
Definition textContent (v : Visit) (selector : string)
  : Script (option string) :=
  fun w =>
    let w1 := emitted (TextContentOf selector) w in
    match textOf v selector with
    | Text s => Ok (Some s) w1
    | Null => Ok None w1
    | NoElement => Throw (TimeoutError (TextContentOf selector)) w1
    end.

(** [page.url()] *)
Definition pageUrl : Script string := fun w => Ok (url (page w)) w.

(** [page.waitForTimeout(5000 + Math.random() * 5000)]: only the call is
    recorded, the delay is a floating-point number of milliseconds. *)
Definition waitForTimeout : Script unit := call WaitForTimeout.

(** [browser.close()] *)
Definition close (w : World) : World := emitted Close w.

(** ** The script *)

(** Lines 19-36. *)
Definition fillAndSubmitForm (cfg : Config) (v : Visit) : Script unit :=
  goto v (bookingUrl cfg) ;;
  fill v Selector.passport (passportNumber cfg) ;;
  fill v Selector.first_name (firstName cfg) ;;
  fill v Selector.last_name (lastName cfg) ;;
  fill v Selector.dob (dob cfg) ;;
  selectOption v Selector.id_country (country cfg) ;;
  selectOption v Selector.id_city (city cfg) ;;
  selectOption v Selector.id_medical_center (targetMedicalCenterId cfg) ;;
  click v Selector.submit ;;
  waitForNavigation v 15000.

(** [attempt++] on a JavaScript number: exact up to 2^53, where adding
    one rounds back to the same value. *)
Definition increment (attempt : Z) : Z :=
  if attempt <? 2 ^ 53 then attempt + 1 else attempt.

(** Lines 42-62, the body of [while (!matched)].  The result is the new
    value of [matched] with the new value of [attempt]. *)
Definition iteration (cfg : Config) (v : Visit) (attempt : Z)
  : Script (bool * Z) :=
  let attempt := increment attempt in
  log (LogAttempt attempt) ;;
  fillAndSubmitForm cfg v ;;
  assignedCenter <-
    tryCatch (textContent v Selector.assigned_center)
             (log LogCouldNotFind ;; ret (Some EmptyString)) ;;
  match assignedCenter with
  | None => throw TypeError
  | Some assigned =>
      if matches assigned (targetMedicalCenterName cfg) then
        paymentUrl <- pageUrl ;;
        log (LogMatched paymentUrl) ;;
        ret (true, attempt)
      else
        log (LogMismatch assigned (targetMedicalCenterName cfg)) ;;
        waitForTimeout ;;
        ret (false, attempt)
  end.

(** How a run stands once the environment has offered its visits. *)
Inductive Outcome :=
| Completed (w : World)
| Crashed (e : Exception) (w : World)
| Running (attempt : Z) (w : World).

(** Lines 41-63: [while (!matched) { ... }], one visit per iteration.
    [Completed] is the exit of the loop, taken when [matched] is true
    at the head of the loop; an exception leaves the loop and the whole
    async function. *)
Fixpoint whileNotMatched (cfg : Config) (vs : list Visit) (matched : bool)
  (attempt : Z) (w : World) : Outcome :=
  if matched then Completed w
  else
    match vs with
    | [] => Running attempt w
    | v :: vs' =>
        match iteration cfg v attempt w with
        | Ok (matched', attempt') w' =>
            whileNotMatched cfg vs' matched' attempt' w'
        | Throw e w' => Crashed e w'
        end
    end.

(** Line 65, reached when the loop is left with [matched = true]. *)
Definition finish (o : Outcome) : Outcome :=
  match o with
  | Completed w => Completed (close w)
  | _ => o
  end.

(** Lines 15-66: launch, open the page, [let matched = false],
    [let attempt = 0], loop, close. *)
Definition main (cfg : Config) (vs : list Visit) : Outcome :=
  finish (whileNotMatched cfg vs false 0 (newPage (launch launchOptions))).

Definition world (o : Outcome) : World :=
  match o with
  | Completed w | Crashed _ w | Running _ w => w
  end.

Definition isCompleted (o : Outcome) : bool :=
  match o with Completed _ => true | _ => false end.

Definition via (r : Request) : option Proxy :=
  match r with
  | PageLoad p _ | FormSubmit p _ => p
  end.

(** ** Reading a run *)

(** The form as [fillAndSubmitForm] leaves it when it clicks submit. *)
Definition formFields (cfg : Config) : gmap string string :=
  <[Selector.id_medical_center := targetMedicalCenterId cfg]>
  (<[Selector.id_city := city cfg]>
  (<[Selector.id_country := country cfg]>
  (<[Selector.dob := dob cfg]>
  (<[Selector.last_name := lastName cfg]>
  (<[Selector.first_name := firstName cfg]>
  (<[Selector.passport := passportNumber cfg]> ∅)))))).

(** The calls of one [fillAndSubmitForm], newest first. *)
Definition formCalls (cfg : Config) : list Event :=
  [ WaitForNavigation 15000;
    Click Selector.submit;
    SelectOption Selector.id_medical_center (targetMedicalCenterId cfg);
    SelectOption Selector.id_city (city cfg);
    SelectOption Selector.id_country (country cfg);
    Fill Selector.dob (dob cfg);
    Fill Selector.last_name (lastName cfg);
    Fill Selector.first_name (firstName cfg);
    Fill Selector.passport (passportNumber cfg);
    Goto (bookingUrl cfg) ].

(** The booking page loads, every control the script touches is there
    and the click returns. *)
Definition formWorks (cfg : Config) (v : Visit) : bool :=
  gotoLoads v
  && hasControl v Selector.passport
  && hasControl v Selector.first_name
  && hasControl v Selector.last_name
  && hasControl v Selector.dob
  && hasOption v Selector.id_country (country cfg)
  && hasOption v Selector.id_city (city cfg)
  && hasOption v Selector.id_medical_center (targetMedicalCenterId cfg)
  && hasControl v Selector.submit
  && negb (hangs (afterClick v)).

(** The value of [assignedCenter] once the try/catch of lines 47-52 is
    done, as a function of what this visit's page shows. *)
Definition extracted (v : Visit) : option string :=
  match textOf v Selector.assigned_center with
  | Text s => Some s
  | Null => None
  | NoElement => Some EmptyString
  end.

(** A visit that goes through the form, gets a response in time and
    ends in the else branch of line 59. *)
Definition mismatching (cfg : Config) (v : Visit) : bool :=
  formWorks cfg v
  && bool_decide (is_Some (navigatesTo v))
  && match extracted v with
     | Some a => negb (matches a (targetMedicalCenterName cfg))
     | None => false
     end.

(** One attempt as the console shows it: the number of line 43, whether
    line 57 or line 60 was reached, and the URL printed by line 57. *)
Record AttemptResult := mkAttemptResult {
  attemptNumber : Z;
  concluded : bool;
  matched : bool;
  paymentUrl : option string
}.

Definition conclude (r : AttemptResult) (m : bool) (u : option string)
  : AttemptResult :=
  {| attemptNumber := attemptNumber r; concluded := true;
     matched := m; paymentUrl := u |}.

(** The attempts of a trace, newest first. *)
Fixpoint attempts (tr : list Event) : list AttemptResult :=
  match tr with
  | [] => []
  | e :: older =>
      let h := attempts older in
      match e with
      | Log (LogAttempt n) =>
          {| attemptNumber := n; concluded := false;
             matched := false; paymentUrl := None |} :: h
      | Log (LogMatched u) =>
          match h with
          | r :: h' => conclude r true (Some u) :: h'
          | [] => []
          end
      | Log (LogMismatch _ _) =>
          match h with
          | r :: h' => conclude r false None :: h'
          | [] => []
          end
      | _ => h
      end
  end.

(** An attempt that has printed line 43 and nothing after it. *)
Definition unconcluded (n : Z) : AttemptResult :=
  {| attemptNumber := n; concluded := false;
     matched := false; paymentUrl := None |}.

(** Events that create or dispose of a session. *)
Definition sessionEvent (e : Event) : bool :=
  match e with
  | Launch _ | NewPage | Close => true
  | _ => false
  end.

Definition sessionEvents (tr : list Event) : list Event :=
  List.filter sessionEvent tr.

(** A request as the script sends it: straight from the browser, and a
    submitted form is the form of [fillAndSubmitForm]. *)
Definition asScripted (cfg : Config) (r : Request) : Prop :=
  via r = None
  /\ match r with
     | FormSubmit _ fields => fields = formFields cfg
     | PageLoad _ target => target = bookingUrl cfg
     end.

(** Every click in the trace comes right after the selection of the
    target center's id in the medical-center field. *)
Fixpoint selectsBeforeSubmit (cfg : Config) (tr : list Event) : Prop :=
  match tr with
  | [] => True
  | Click _ :: older =>
      match older with
      | SelectOption selector value :: _ =>
          selector = Selector.id_medical_center
          /\ value = targetMedicalCenterId cfg
      | _ => False
      end
      /\ selectsBeforeSubmit cfg older
  | _ :: older => selectsBeforeSubmit cfg older
  end.

(** What holds of the world between any two steps of a run: no proxy,
    only scripted requests, the target center selected before every
    click, one browser and one page. *)
Definition steady (cfg : Config) (w : World) : Prop :=
  egress w = None
  /\ Forall (asScripted cfg) (requests w)
  /\ selectsBeforeSubmit cfg (trace w)
  /\ sessionEvents (trace w) = [NewPage; Launch launchOptions].

(** What the browser context holds after the visits. *)
Definition storedAfter (vs : list Visit) : gmap string string :=
  fold_left (fun s v => siteWrites v s) vs ∅.

(** The attempt counter after [n] iterations. *)
Definition attemptAfter (n : nat) : Z := Z.min (Z.of_nat n) (2 ^ 53).

(** The world after a [fillAndSubmitForm] that went through and reached
    [u]. *)
Definition submitted (cfg : Config) (v : Visit) (u : string) (w : World)
  : World :=
  {| egress := egress w;
     page := {| url := u; form := ∅;
                storage := siteWrites v (storage (page w)) |};
     trace := formCalls cfg ++ trace w;
     requests := FormSubmit (egress w) (formFields cfg)
                 :: PageLoad (egress w) (bookingUrl cfg) :: requests w |}.

(** The world after lines 47-52. *)
Definition afterExtraction (v : Visit) (w : World) : World :=
  match textOf v Selector.assigned_center with
  | NoElement =>
      emitted (Log LogCouldNotFind)
        (emitted (TextContentOf Selector.assigned_center) w)
  | _ => emitted (TextContentOf Selector.assigned_center) w
  end.

(** The world after lines 55-58 and after lines 60-61. *)
Definition decided (cfg : Config) (assigned : string) (w : World) : World :=
  if matches assigned (targetMedicalCenterName cfg)
  then emitted (Log (LogMatched (url (page w)))) w
  else emitted WaitForTimeout
         (emitted (Log (LogMismatch assigned (targetMedicalCenterName cfg)))
            w).

(** The world after a whole iteration that threw nothing. *)
Definition attempted (cfg : Config) (v : Visit) (u assigned : string)
  (attempt : Z) (w : World) : World :=
  decided cfg assigned
    (afterExtraction v
       (submitted cfg v u
          (emitted (Log (LogAttempt (increment attempt))) w))).

(** The world in which the wait of line 35 elapses: the page is the one
    the click left, the result page when the navigation had committed
    before the click returned, else the booking page with the form as
    submitted. *)
Definition waitElapsed (cfg : Config) (v : Visit) (w : World) : World :=
  {| egress := egress w;
     page :=
       match afterClick v with
       | Lands u =>
           {| url := u; form := ∅;
              storage := siteWrites v (storage (page w)) |}
       | _ =>
           {| url := bookingUrl cfg; form := formFields cfg;
              storage := siteWrites v (storage (page w)) |}
       end;
     trace := formCalls cfg ++ trace w;
     requests := FormSubmit (egress w) (formFields cfg)
                 :: PageLoad (egress w) (bookingUrl cfg) :: requests w |}.

(** ** The matching rule in the words of the specification *)

Module Spec.

Fixpoint allWhite (s : string) : Prop :=
  match s with
  | EmptyString => True
  | String c s' => isWhiteSpace c = true /\ allWhite s'
  end.

Definition startsClean (s : string) : Prop :=
  match s with
  | EmptyString => True
  | String c _ => isWhiteSpace c = false
  end.

Fixpoint endsClean (s : string) : Prop :=
  match s with
  | EmptyString => True
  | String c EmptyString => isWhiteSpace c = false
  | String _ s' => endsClean s'
  end.

(** [core] is [s] without its leading and trailing whitespace. *)
Definition trimmedTo (s core : string) : Prop :=
  exists l r, s = l +:+ core +:+ r
    /\ allWhite l /\ allWhite r /\ startsClean core /\ endsClean core.

(** The same character, or an upper-case letter and its lower-case
    form. *)
Definition caseVariant (c d : ascii) : Prop :=
  c = d
  \/ (isUpper c = true /\ code d = (code c + 32)%N)
  \/ (isUpper d = true /\ code c = (code d + 32)%N).

Fixpoint sameIgnoringCase (s t : string) : Prop :=
  match s, t with
  | EmptyString, EmptyString => True
  | String c s', String d t' => caseVariant c d /\ sameIgnoringCase s' t'
  | _, _ => False
  end.

(** Exact match: case-insensitive, whitespace-trimmed equality. *)
Definition exactMatch (assigned target : string) : Prop :=
  exists a t, trimmedTo assigned a /\ trimmedTo target t
    /\ sameIgnoringCase a t.

End Spec.

(** ** JavaScript strings beyond code unit 255 *)


(** A string as its sequence of UTF-16 code units.  [trim] is modelled
    for every code unit.  [toLowerCase] is modelled, with the
    Final_Sigma rule of the Unicode default case conversion, for the
    strings made of Latin-1 code units and the three Greek sigmas; for
    any other string the model gives no answer. *)
Module Utf16.

Definition capitalSigma : N := 931.
Definition finalSigma : N := 962.
Definition smallSigma : N := 963.

Definition covered (n : N) : bool :=
  ((n <? 256) || (n =? capitalSigma) || (n =? finalSigma)
   || (n =? smallSigma))%N.

(** WhiteSpace and LineTerminator of ECMAScript: U+0009..U+000D, U+0020,
    U+00A0, U+1680, U+2000..U+200A, U+2028, U+2029, U+202F, U+205F,
    U+3000, U+FEFF. *)
Definition isWhiteSpace (n : N) : bool :=
  ((9 <=? n) && (n <=? 13) || (n =? 32) || (n =? 160) || (n =? 5760)
   || (8192 <=? n) && (n <=? 8202) || (n =? 8232) || (n =? 8233)
   || (n =? 8239) || (n =? 8287) || (n =? 12288) || (n =? 65279))%N.

(** Latin-1 code units with a lower-case form 32 above. *)
Definition isUpper (n : N) : bool :=
  ((65 <=? n) && (n <=? 90)
   || (192 <=? n) && (n <=? 222) && negb (n =? 215))%N.

(** Covered code units with the property Cased. *)
Definition isCased (n : N) : bool :=
  ((65 <=? n) && (n <=? 90) || (97 <=? n) && (n <=? 122)
   || (n =? 170) || (n =? 181) || (n =? 186)
   || (192 <=? n) && (n <=? 214) || (216 <=? n) && (n <=? 246)
   || (248 <=? n) && (n <=? 255)
   || (n =? capitalSigma) || (n =? finalSigma) || (n =? smallSigma))%N.

(** Covered code units with the property Case_Ignorable: apostrophe,
    full stop, colon, circumflex, grave, diaeresis, soft hyphen, macron,
    acute, middle dot, cedilla. *)
Definition isCaseIgnorable (n : N) : bool :=
  ((n =? 39) || (n =? 46) || (n =? 58) || (n =? 94) || (n =? 96)
   || (n =? 168) || (n =? 173) || (n =? 175) || (n =? 180)
   || (n =? 183) || (n =? 184))%N.

Definition lowerUnit (n : N) : N :=
  if isUpper n then (n + 32)%N else n.

(** What follows is case-ignorable characters and then a cased letter. *)
Fixpoint followedByCased (s : list N) : bool :=
  match s with
  | [] => false
  | c :: rest =>
      if isCaseIgnorable c then followedByCased rest else isCased c
  end.

(** Lower-casing from left to right; [afterCased] tells whether what
    precedes is a cased letter and then case-ignorable characters.  A
    capital sigma in that position that is not followed by a cased
    letter becomes the final sigma. *)
Fixpoint lowerFrom (afterCased : bool) (s : list N) : list N :=
  match s with
  | [] => []
  | c :: rest =>
      (if (c =? capitalSigma)%N
       then if afterCased && negb (followedByCased rest)
            then finalSigma else smallSigma
       else lowerUnit c)
      :: lowerFrom (if isCaseIgnorable c then afterCased else isCased c)
           rest
  end.

Definition toLowerCase (s : list N) : option (list N) :=
  if forallb covered s then Some (lowerFrom false s) else None.

Fixpoint trimStart (s : list N) : list N :=
  match s with
  | [] => []
  | c :: s' => if isWhiteSpace c then trimStart s' else s
  end.

Fixpoint trimEnd (s : list N) : list N :=
  match s with
  | [] => []
  | c :: s' =>
      match trimEnd s' with
      | [] => if isWhiteSpace c then [] else [c]
      | r => c :: r
      end
  end.

Definition trim (s : list N) : list N := trimEnd (trimStart s).

(** Line 54 on such strings; [None] when a name has a code unit whose
    lower-casing is not modelled. *)
Definition matches (assignedCenter targetMedicalCenterName : list N)
  : option bool :=
  match toLowerCase (trim assignedCenter),
        toLowerCase (trim targetMedicalCenterName) with
  | Some a, Some t => Some (bool_decide (a = t))
  | _, _ => None
  end.

(** The matching rule in the words of the specification. *)

Definition allWhite (s : list N) : Prop :=
  Forall (fun c => isWhiteSpace c = true) s.

Definition startsClean (s : list N) : Prop :=
  match s with
  | [] => True
  | c :: _ => isWhiteSpace c = false
  end.

Definition endsClean (s : list N) : Prop := startsClean (rev s).

Definition trimmedTo (s core : list N) : Prop :=
  exists l r, s = l ++ core ++ r
    /\ allWhite l /\ allWhite r /\ startsClean core /\ endsClean core.

(** [l] is a lower-case form of the upper-case letter [u]. *)
Definition lowerFormOf (u l : N) : Prop :=
  (isUpper u = true /\ l = (u + 32)%N)
  \/ (u = capitalSigma /\ (l = smallSigma \/ l = finalSigma)).

Definition caseVariant (c d : N) : Prop :=
  c = d \/ lowerFormOf c d \/ lowerFormOf d c.

Definition sameIgnoringCase (s t : list N) : Prop :=
  Forall2 caseVariant s t.

Definition exactMatch (assigned target : list N) : Prop :=
  exists a t, trimmedTo assigned a /\ trimmedTo target t
    /\ sameIgnoringCase a t.

End Utf16.

(** ** Sample environments *)

(** A visit on which the form works, the site sets a session cookie and
    assigns [center]. *)
Definition assigning (center : string) : Visit := {|
  gotoLoads := true;
  siteWrites := fun s => <["sessionid" := "abc"]> s;
  hasControl := fun _ => true;
  hasOption := fun _ _ => true;
  afterClick := Stays;
  navigatesTo := Some "https://wafid.com/appointment/1/pay/";
  textOf := fun _ => Text center
|}.

(** The site answers in time but shows no assigned center. *)
Definition withoutCenter : Visit := {|
  gotoLoads := true;
  siteWrites := fun s => s;
  hasControl := fun _ => true;
  hasOption := fun _ _ => true;
  afterClick := Stays;
  navigatesTo := Some "https://wafid.com/appointment/1/pay/";
  textOf := fun _ => NoElement
|}.

(** The form is sent and its result page is loaded by the time the
    click returns; no further navigation comes, so the wait of line 35
    elapses. *)
Definition timingOut : Visit := {|
  gotoLoads := true;
  siteWrites := fun s => s;
  hasControl := fun _ => true;
  hasOption := fun _ _ => true;
  afterClick := Lands "https://wafid.com/appointment/1/pay/";
  navigatesTo := None;
  textOf := fun _ => Text "BENGAL MEDICAL CENTER"
|}.

(** The configuration of the script with a target name of two spaces. *)
Definition blankTarget : Config := {|
  passportNumber := passportNumber config;
  firstName := firstName config;
  lastName := lastName config;
  dob := dob config;
  country := country config;
  city := city config;
  targetMedicalCenterName := "  ";
  targetMedicalCenterId := targetMedicalCenterId config;
  bookingUrl := bookingUrl config
|}.

(** The form works but the site does not offer the target center in the
    medical-center select. *)
Definition centerNotOffered : Visit := {|
  gotoLoads := true;
  siteWrites := fun s => s;
  hasControl := fun _ => true;
  hasOption := fun selector _ =>
    negb (String.eqb selector Selector.id_medical_center);
  afterClick := Stays;
  navigatesTo := Some "https://wafid.com/appointment/1/pay/";
  textOf := fun _ => Text "Other"
|}.

(** The form is sent, but the navigation it starts outlasts the click's
    own timeout. *)
Definition clickHangs : Visit := {|
  gotoLoads := true;
  siteWrites := fun s => s;
  hasControl := fun _ => true;
  hasOption := fun _ _ => true;
  afterClick := Hangs;
  navigatesTo := None;
  textOf := fun _ => Text "Other"
|}.

(** ** Further readings of a run *)

(** The calls of lines 20-34 in the order the script makes them, each
    with whether the environment lets it succeed. *)
Definition formSteps (cfg : Config) (v : Visit) : list (Event * bool) :=
  [ (Goto (bookingUrl cfg), gotoLoads v);
    (Fill Selector.passport (passportNumber cfg),
     hasControl v Selector.passport);
    (Fill Selector.first_name (firstName cfg),
     hasControl v Selector.first_name);
    (Fill Selector.last_name (lastName cfg),
     hasControl v Selector.last_name);
    (Fill Selector.dob (dob cfg), hasControl v Selector.dob);
    (SelectOption Selector.id_country (country cfg),
     hasOption v Selector.id_country (country cfg));
    (SelectOption Selector.id_city (city cfg),
     hasOption v Selector.id_city (city cfg));
    (SelectOption Selector.id_medical_center (targetMedicalCenterId cfg),
     hasOption v Selector.id_medical_center (targetMedicalCenterId cfg));
    (Click Selector.submit,
     hasControl v Selector.submit && negb (hangs (afterClick v))) ].

(** The first of these calls that does not succeed. *)
Definition firstFailure (cfg : Config) (v : Visit) : option Event :=
  match List.find (fun step => negb (snd step)) (formSteps cfg v) with
  | Some step => Some (fst step)
  | None => None
  end.

(** The error a failing call rejects with. *)
Definition errorOf (call : Event) : Exception :=
  match call with
  | Goto _ => NavigationError
  | _ => TimeoutError call
  end.

(** The form has gone before the failure exactly when the failing call
    is the click on a button that was there. *)
Definition formSentBefore (cfg : Config) (v : Visit) (via : option Proxy)
  (call : Event) : list Request :=
  match call with
  | Click _ =>
      if hasControl v Selector.submit
      then [FormSubmit via (formFields cfg)]
      else []
  | _ => []
  end.

(** The numbers line 43 prints over [k] attempts, newest first. *)
Fixpoint countdown (k : nat) : list Z :=
  match k with
  | O => []
  | S k' => attemptAfter k :: countdown k'
  end.

(** The event right before an attempt's heading is the opening of the
    page or the wait of line 61. *)
Definition afterPause (tr : list Event) : Prop :=
  match tr with
  | NewPage :: _ | WaitForTimeout :: _ => True
  | _ => False
  end.

Fixpoint pausedBeforeAttempts (tr : list Event) : Prop :=
  match tr with
  | [] => True
  | Log (LogAttempt _) :: older =>
      afterPause older /\ pausedBeforeAttempts older
  | _ :: older => pausedBeforeAttempts older
  end.

(** The requests of [k] attempts that went through the form, newest
    first. *)
Fixpoint attemptRequests (cfg : Config) (via : option Proxy) (k : nat)
  : list Request :=
  match k with
  | O => []
  | S k' =>
      FormSubmit via (formFields cfg) :: PageLoad via (bookingUrl cfg)
      :: attemptRequests cfg via k'
  end.

(** * Properties *)

(** ** Strings *)

Section StringFacts.

Import Spec.

Lemma code_inj c d : code c = code d -> c = d.
Proof.
  unfold code. intros H.
  rewrite <- (ascii_N_embedding c), <- (ascii_N_embedding d). congruence.
Qed.

Lemma code_ascii_of_N n : (n < 256)%N -> code (ascii_of_N n) = n.
Proof. apply N_ascii_embedding. Qed.

Lemma code_bounded c : (code c < 256)%N.
Proof. apply N_ascii_bounded. Qed.

Lemma isUpper_range c :
  isUpper c = true ->
  (65 <= code c <= 90 \/ 192 <= code c <= 222 /\ code c <> 215)%N.
Proof.
  unfold isUpper. cbv zeta.
  rewrite orb_true_iff, !andb_true_iff, negb_true_iff, !N.leb_le, N.eqb_neq.
  lia.
Qed.

Lemma isUpper_shifted c d :
  isUpper c = true -> code d = (code c + 32)%N -> isUpper d = false.
Proof.
  intros Hc Hd. apply isUpper_range in Hc.
  unfold isUpper. cbv zeta. rewrite Hd.
  rewrite orb_false_iff, !andb_false_iff, negb_false_iff, !N.leb_gt, N.eqb_eq.
  lia.
Qed.

Lemma toLowerChar_upper c d :
  isUpper c = true -> code d = (code c + 32)%N ->
  toLowerChar c = toLowerChar d.
Proof.
  intros Hc Hd. unfold toLowerChar.
  rewrite Hc, (isUpper_shifted c d Hc Hd), <- Hd.
  unfold code. apply ascii_N_embedding.
Qed.

Lemma caseVariant_toLowerChar c d :
  caseVariant c d <-> toLowerChar c = toLowerChar d.
Proof.
  split.
  - intros [-> | [[Hc Hd] | [Hd Hc]]].
    + reflexivity.
    + by apply toLowerChar_upper.
    + symmetry. by apply toLowerChar_upper.
  - unfold toLowerChar, caseVariant. intros H.
    destruct (isUpper c) eqn:Hc, (isUpper d) eqn:Hd.
    + left. apply code_inj.
      apply isUpper_range in Hc. apply isUpper_range in Hd.
      apply (f_equal code) in H.
      rewrite !code_ascii_of_N in H by lia. lia.
    + right. left. split; [done |]. subst d.
      apply isUpper_range in Hc. rewrite code_ascii_of_N; lia.
    + right. right. split; [done |]. subst c.
      apply isUpper_range in Hd. rewrite code_ascii_of_N; lia.
    + by left.
Qed.

Lemma sameIgnoringCase_toLowerCase s t :
  sameIgnoringCase s t <-> toLowerCase s = toLowerCase t.
Proof.
  revert t. induction s as [| c s IH]; intros [| d t]; simpl;
    try (split; [done | discriminate]); [done |].
  rewrite caseVariant_toLowerChar, IH. split.
  - intros [-> ->]. reflexivity.
  - intros H. by injection H.
Qed.

Lemma append_nil (s : string) : EmptyString +:+ s = s.
Proof. reflexivity. Qed.

Lemma append_cons c (a b : string) : String c a +:+ b = String c (a +:+ b).
Proof. reflexivity. Qed.

Lemma trimStart_white l s : allWhite l -> trimStart (l +:+ s) = trimStart s.
Proof.
  induction l as [| c l IH]; rewrite ?append_nil, ?append_cons; simpl;
    [done |].
  intros [-> Hl]. auto.
Qed.

Lemma trimStart_clean s : startsClean s -> trimStart s = s.
Proof. destruct s as [| c s]; simpl; [done |]. by intros ->. Qed.

Lemma trimStart_all_white r : allWhite r -> trimStart r = EmptyString.
Proof.
  induction r as [| c r IH]; simpl; [done |]. intros [-> Hr]. auto.
Qed.

Lemma trimEnd_all_white r : allWhite r -> trimEnd r = EmptyString.
Proof.
  induction r as [| c r IH]; simpl; [done |].
  intros [Hc Hr]. by rewrite IH, Hc.
Qed.

Lemma trimEnd_white s r : allWhite r -> trimEnd (s +:+ r) = trimEnd s.
Proof.
  intros Hr. induction s as [| c s IH];
    rewrite ?append_nil, ?append_cons; simpl.
  - by apply trimEnd_all_white.
  - by rewrite IH.
Qed.

Lemma trimEnd_clean s : endsClean s -> trimEnd s = s.
Proof.
  induction s as [| c s IH]; [done |].
  destruct s as [| d s].
  - simpl. by intros ->.
  - intros H. change (endsClean (String d s)) in H.
    change (trimEnd (String c (String d s)))
      with (match trimEnd (String d s) with
            | EmptyString =>
                if isWhiteSpace c then EmptyString else String c EmptyString
            | r => String c r
            end).
    by rewrite IH.
Qed.

(** [trim] computes the core the specification speaks of. *)
Lemma trimmedTo_trim s core : trimmedTo s core -> trim s = core.
Proof.
  intros (l & r & -> & Hl & Hr & Hs & He). unfold trim.
  rewrite trimStart_white by done.
  destruct core as [| c core].
  - rewrite append_nil. by rewrite trimStart_all_white.
  - rewrite append_cons, trimStart_clean by done.
    rewrite <- append_cons, trimEnd_white by done. by apply trimEnd_clean.
Qed.

Lemma trimStart_split s :
  exists l, s = l +:+ trimStart s /\ allWhite l /\ startsClean (trimStart s).
Proof.
  induction s as [| c s (l & Hs & Hl & Hc)].
  - by exists EmptyString.
  - simpl. destruct (isWhiteSpace c) eqn:Hw.
    + exists (String c l). rewrite append_cons. simpl. by rewrite <- Hs.
    + exists EmptyString. by rewrite append_nil.
Qed.

Lemma trimEnd_split s :
  exists r, s = trimEnd s +:+ r /\ allWhite r /\ endsClean (trimEnd s).
Proof.
  induction s as [| c s (r & Hs & Hr & Hc)].
  - by exists EmptyString.
  - simpl. destruct (trimEnd s) as [| d t] eqn:Ht.
    + rewrite append_nil in Hs. subst s.
      destruct (isWhiteSpace c) eqn:Hw.
      * exists (String c r). by rewrite append_nil.
      * exists r. by rewrite append_cons, append_nil.
    + exists r. split; [| done]. by rewrite append_cons, <- Hs.
Qed.

Lemma trimEnd_startsClean s : startsClean s -> startsClean (trimEnd s).
Proof.
  destruct s as [| c s]; simpl; [done |]. intros Hc.
  destruct (trimEnd s); by rewrite ?Hc.
Qed.

Lemma trim_trimmedTo s : trimmedTo s (trim s).
Proof.
  destruct (trimStart_split s) as (l & Hs & Hl & Hc).
  destruct (trimEnd_split (trimStart s)) as (r & Ht & Hr & He).
  exists l, r. unfold trim. rewrite <- Ht.
  repeat split; auto using trimEnd_startsClean.
Qed.

Lemma strictEq_true s t : strictEq s t = true <-> s = t.
Proof. apply String.eqb_eq. Qed.

End StringFacts.

(** ** One iteration *)

Ltac unfold_script :=
  unfold iteration, fillAndSubmitForm, bind, tryCatch, ret, throw, log,
    waitForTimeout, call, goto, fill, selectOption, click,
    waitForNavigation, textContent, pageUrl.

Ltac reduce_world :=
  cbn [emitted sent showing egress page trace requests url form storage].

Ltac reduce_world_in H :=
  cbn [emitted sent showing egress page trace requests url form storage] in H.

(** Case analysis on everything the environment decides in [H]. *)
Ltac scrutinize H :=
  repeat (match type of H with
          | context [if ?b then _ else _] => destruct b eqn:?
          | context [match afterClick ?v with _ => _ end] =>
              destruct (afterClick v) eqn:?
          | context [match navigatesTo ?v with _ => _ end] =>
              destruct (navigatesTo v) eqn:?
          | context [match textOf ?v ?s with _ => _ end] =>
              destruct (textOf v s) eqn:?
          end; reduce_world_in H; try discriminate H).

Lemma formWorks_true cfg v :
  formWorks cfg v = true ->
  gotoLoads v = true
  /\ hasControl v Selector.passport = true
  /\ hasControl v Selector.first_name = true
  /\ hasControl v Selector.last_name = true
  /\ hasControl v Selector.dob = true
  /\ hasOption v Selector.id_country (country cfg) = true
  /\ hasOption v Selector.id_city (city cfg) = true
  /\ hasOption v Selector.id_medical_center (targetMedicalCenterId cfg) = true
  /\ hasControl v Selector.submit = true
  /\ hangs (afterClick v) = false.
Proof.
  unfold formWorks. rewrite !andb_true_iff, negb_true_iff. tauto.
Qed.

Lemma fillAndSubmitForm_works cfg v u w :
  formWorks cfg v = true -> navigatesTo v = Some u ->
  fillAndSubmitForm cfg v w = Ok tt (submitted cfg v u w).
Proof.
  intros (H1 & H2 & H3 & H4 & H5 & H6 & H7 & H8 & H9 & Hc)%formWorks_true Hu.
  unfold_script.
  rewrite H1. reduce_world. rewrite H2. reduce_world.
  rewrite H3. reduce_world. rewrite H4. reduce_world.
  rewrite H5. reduce_world. rewrite H6. reduce_world.
  rewrite H7. reduce_world. rewrite H8. reduce_world.
  rewrite H9. reduce_world.
  destruct (afterClick v); [| | done]; reduce_world; by rewrite Hu.
Qed.

Lemma iteration_works cfg v u a n w :
  formWorks cfg v = true -> navigatesTo v = Some u ->
  extracted v = Some a ->
  iteration cfg v n w
  = Ok (matches a (targetMedicalCenterName cfg), increment n)
       (attempted cfg v u a n w).
Proof.
  intros Hf Hu Ha.
  unfold iteration, log, call, bind at 1 2. reduce_world.
  rewrite (fillAndSubmitForm_works cfg v u) by done.
  unfold attempted, afterExtraction, decided, extracted in *.
  unfold_script.
  destruct (textOf v Selector.assigned_center); simplify_eq;
    match goal with
    | |- context [matches ?x ?y] => by destruct (matches x y)
    end.
Qed.

Ltac use_answers :=
  repeat match goal with
         | Hb : ?x = _ |- context [?x] => rewrite Hb
         end.

(** An iteration that threw nothing went through the whole form. *)
Lemma iteration_ok cfg v n w b n' w' :
  iteration cfg v n w = Ok (b, n') w' ->
  formWorks cfg v = true
  /\ exists u a,
       navigatesTo v = Some u /\ extracted v = Some a
       /\ b = matches a (targetMedicalCenterName cfg)
       /\ n' = increment n
       /\ w' = attempted cfg v u a n w.
Proof.
  unfold_script. intros H. scrutinize H; injection H as <- <- <-.
  all: split; [unfold formWorks; by use_answers |].
  all: eexists _, _; split; [done |].
  all: unfold extracted, attempted, decided, afterExtraction.
  all: use_answers; split; [done |]; by use_answers.
Qed.

(** What an iteration that went through leaves behind. *)
Lemma attempted_facts cfg v u a n w :
  let w' := attempted cfg v u a n w in
  let m := matches a (targetMedicalCenterName cfg) in
  egress w' = egress w
  /\ requests w'
     = FormSubmit (egress w) (formFields cfg)
       :: PageLoad (egress w) (bookingUrl cfg) :: requests w
  /\ storage (page w') = siteWrites v (storage (page w))
  /\ url (page w') = u
  /\ attempts (trace w')
     = {| attemptNumber := increment n; concluded := true; matched := m;
          paymentUrl := if m then Some u else None |}
       :: attempts (trace w)
  /\ sessionEvents (trace w') = sessionEvents (trace w)
  /\ (selectsBeforeSubmit cfg (trace w) ->
      selectsBeforeSubmit cfg (trace w')).
Proof.
  unfold attempted, decided, afterExtraction. cbv zeta.
  destruct (textOf v Selector.assigned_center),
    (matches a (targetMedicalCenterName cfg)); simpl; auto 10.
Qed.

(** What an iteration that threw leaves behind. *)
Lemma iteration_throw cfg v n w e w' :
  iteration cfg v n w = Throw e w' ->
  egress w' = egress w
  /\ (egress w = None -> Forall (asScripted cfg) (requests w) ->
      Forall (asScripted cfg) (requests w'))
  /\ attempts (trace w') = unconcluded (increment n) :: attempts (trace w)
  /\ sessionEvents (trace w') = sessionEvents (trace w)
  /\ (selectsBeforeSubmit cfg (trace w) ->
      selectsBeforeSubmit cfg (trace w')).
Proof.
  unfold_script. intros H. scrutinize H; injection H as <- <-.
  all: split; [done |]; split;
    [intros Hp Hr; reduce_world; rewrite ?Hp;
     repeat (apply Forall_cons; split; [done |]); done |].
  all: simpl; auto.
Qed.

Lemma iteration_steady cfg v n w :
  steady cfg w ->
  match iteration cfg v n w with
  | Ok _ w' | Throw _ w' => steady cfg w'
  end.
Proof.
  intros (Hp & Hr & Hs & He).
  destruct (iteration cfg v n w) as [[b n'] w' | e w'] eqn:Hi.
  - apply iteration_ok in Hi as (_ & u & a & _ & _ & _ & _ & ->).
    destruct (attempted_facts cfg v u a n w)
      as (Hp' & Hr' & _ & _ & _ & He' & Hs').
    repeat split; [congruence | | auto | congruence].
    rewrite Hr', Hp. by repeat (apply Forall_cons; split; [done |]).
  - apply iteration_throw in Hi as (Hp' & Hr' & _ & He' & Hs').
    repeat split; [congruence | auto | auto | congruence].
Qed.

(** ** The loop *)

Lemma whileNotMatched_matched cfg vs n w :
  whileNotMatched cfg vs true n w = Completed w.
Proof. by destruct vs. Qed.

Lemma whileNotMatched_nil cfg n w :
  whileNotMatched cfg [] false n w = Running n w.
Proof. reflexivity. Qed.

(** One turn of the loop. *)
Lemma whileNotMatched_cons cfg v vs n w :
  whileNotMatched cfg (v :: vs) false n w
  = match iteration cfg v n w with
    | Ok (true, _) w' => Completed w'
    | Ok (false, n') w' => whileNotMatched cfg vs false n' w'
    | Throw e w' => Crashed e w'
    end.
Proof.
  simpl. destruct (iteration cfg v n w) as [[[] n'] w' | e w']; [| done..].
  apply whileNotMatched_matched.
Qed.

Lemma whileNotMatched_app cfg vs rest n w :
  whileNotMatched cfg (vs ++ rest) false n w
  = match whileNotMatched cfg vs false n w with
    | Running n' w' => whileNotMatched cfg rest false n' w'
    | o => o
    end.
Proof.
  revert n w. induction vs as [| v vs IH]; intros n w; [done |].
  rewrite <- app_comm_cons, !whileNotMatched_cons.
  by destruct (iteration cfg v n w) as [[[] n'] w' | e w'].
Qed.

Lemma whileNotMatched_steady cfg vs n w :
  steady cfg w -> steady cfg (world (whileNotMatched cfg vs false n w)).
Proof.
  revert n w. induction vs as [| v vs IH]; intros n w Hw; [done |].
  rewrite whileNotMatched_cons.
  pose proof (iteration_steady cfg v n w Hw) as Hi.
  destruct (iteration cfg v n w) as [[[] n'] w' | e w']; simpl; auto.
Qed.

Lemma steady_start cfg : steady cfg (newPage (launch launchOptions)).
Proof. repeat split. constructor. Qed.

(** A run that is still looping has been through mismatching visits
    only, and nothing but the site has touched what the browser stores. *)
Lemma whileNotMatched_running cfg vs n w n' w' :
  whileNotMatched cfg vs false n w = Running n' w' ->
  Forall (fun v => mismatching cfg v = true) vs
  /\ storage (page w')
     = fold_left (fun s v => siteWrites v s) vs (storage (page w))
  /\ length (attempts (trace w'))
     = (length vs + length (attempts (trace w)))%nat.
Proof.
  revert n w. induction vs as [| v vs IH]; intros n w.
  - intros [= <- <-]. auto.
  - rewrite whileNotMatched_cons. simpl.
    destruct (iteration cfg v n w) as [[[] n1] w1 | e w1] eqn:Hi;
      [done | | done].
    intros (Hvs & Hst & Hlen)%IH.
    apply iteration_ok in Hi as (Hf & u & a & Hu & Ha & Hm & _ & ->).
    destruct (attempted_facts cfg v u a n w)
      as (_ & _ & Hst' & _ & Hat & _ & _).
    split; [| split].
    + constructor; [| done]. unfold mismatching.
      by rewrite Hf, Hu, Ha, <- Hm.
    + by rewrite Hst, Hst'.
    + rewrite Hlen, Hat. simpl. lia.
Qed.

(** The history of a run: nothing but its newest attempt is matched, and
    the newest is matched exactly when the loop was left. *)
Lemma whileNotMatched_attempts cfg vs n w :
  Forall (fun r => matched r = false) (attempts (trace w)) ->
  match whileNotMatched cfg vs false n w with
  | Completed w' =>
      exists r older v u,
        attempts (trace w') = r :: older
        /\ concluded r = true /\ matched r = true
        /\ In v vs /\ navigatesTo v = Some u
        /\ paymentUrl r = Some u /\ url (page w') = u
        /\ Forall (fun r => matched r = false) older
  | Crashed _ w' | Running _ w' =>
      Forall (fun r => matched r = false) (attempts (trace w'))
  end.
Proof.
  revert n w. induction vs as [| v vs IH]; intros n w Hw; [done |].
  rewrite whileNotMatched_cons.
  destruct (iteration cfg v n w) as [[b n1] w1 | e w1] eqn:Hi.
  - apply iteration_ok in Hi as (Hf & u & a & Hu & Ha & -> & -> & ->).
    destruct (attempted_facts cfg v u a n w)
      as (_ & _ & _ & Hurl & Hat & _ & _).
    destruct (matches a (targetMedicalCenterName cfg)) eqn:Hm.
    + eexists _, _, v, u. split; [exact Hat |]. simpl. auto 10.
    + assert (Forall (fun r => matched r = false)
                (attempts (trace (attempted cfg v u a n w)))) as Hw'.
      { rewrite Hat. by constructor. }
      specialize (IH (increment n) _ Hw').
      destruct (whileNotMatched cfg vs false (increment n) _);
        [| done | done].
      destruct IH as (r & older & v' & u' & H1 & H2 & H3 & H4 & H5).
      exists r, older, v', u'. simpl. auto 10.
  - apply iteration_throw in Hi as (_ & _ & -> & _). by constructor.
Qed.

(** ** Whole runs *)

Lemma main_finish cfg vs :
  main cfg vs
  = finish (whileNotMatched cfg vs false 0 (newPage (launch launchOptions))).
Proof. reflexivity. Qed.

Lemma main_app cfg vs rest n w :
  main cfg vs = Running n w ->
  main cfg (vs ++ rest) = finish (whileNotMatched cfg rest false n w).
Proof.
  rewrite !main_finish, whileNotMatched_app.
  destruct (whileNotMatched cfg vs false 0 _); simpl; [done | done |].
  by intros [= -> ->].
Qed.

Lemma main_running cfg vs n w :
  main cfg vs = Running n w ->
  whileNotMatched cfg vs false 0 (newPage (launch launchOptions))
  = Running n w.
Proof.
  rewrite main_finish. by destruct (whileNotMatched cfg vs false 0 _).
Qed.

Lemma main_steady cfg vs :
  let w := world (main cfg vs) in
  egress w = None
  /\ Forall (asScripted cfg) (requests w)
  /\ selectsBeforeSubmit cfg (trace w)
  /\ sessionEvents (trace w)
     = (if isCompleted (main cfg vs) then [Close] else [])
       ++ [NewPage; Launch launchOptions].
Proof.
  rewrite main_finish.
  pose proof (whileNotMatched_steady cfg vs 0 _ (steady_start cfg)) as H.
  destruct (whileNotMatched cfg vs false 0 _) as [w | e w | n w]; simpl in *;
    destruct H as (Hp & Hr & Hs & He); rewrite ?He; auto.
Qed.

Lemma main_attempts cfg vs :
  match main cfg vs with
  | Completed w' =>
      exists r older v u,
        attempts (trace w') = r :: older
        /\ concluded r = true /\ matched r = true
        /\ In v vs /\ navigatesTo v = Some u
        /\ paymentUrl r = Some u /\ url (page w') = u
        /\ Forall (fun r => matched r = false) older
  | Crashed _ w' | Running _ w' =>
      Forall (fun r => matched r = false) (attempts (trace w'))
  end.
Proof.
  rewrite main_finish.
  pose proof (whileNotMatched_attempts cfg vs 0
                (newPage (launch launchOptions)) (List.Forall_nil _)) as H.
  by destruct (whileNotMatched cfg vs false 0 _).
Qed.

Lemma increment_attemptAfter k : increment (attemptAfter k) = attemptAfter (S k).
Proof.
  unfold increment, attemptAfter.
  change (2 ^ 53) with 9007199254740992.
  destruct (Z.ltb_spec (Z.min (Z.of_nat k) 9007199254740992)
              9007199254740992); lia.
Qed.

Lemma mismatching_true cfg v :
  mismatching cfg v = true ->
  formWorks cfg v = true
  /\ exists u a,
       navigatesTo v = Some u /\ extracted v = Some a
       /\ matches a (targetMedicalCenterName cfg) = false.
Proof.
  unfold mismatching. rewrite !andb_true_iff, bool_decide_eq_true.
  intros [[Hf [u Hu]] Hm]. split; [done |].
  destruct (extracted v) as [a |]; [| done].
  exists u, a. by rewrite negb_true_iff in Hm.
Qed.

(** Visits that mismatch never end the loop. *)
Lemma whileNotMatched_mismatching cfg vs k w :
  Forall (fun v => mismatching cfg v = true) vs ->
  exists w',
    whileNotMatched cfg vs false (attemptAfter k) w
    = Running (attemptAfter (k + length vs)) w'.
Proof.
  intros Hvs. revert k w.
  induction Hvs as [| v vs Hv _ IH]; intros k w.
  - exists w. by rewrite Nat.add_0_r.
  - apply mismatching_true in Hv as (Hf & u & a & Hu & Ha & Hm).
    rewrite whileNotMatched_cons, (iteration_works cfg v u a) by done.
    rewrite Hm, increment_attemptAfter.
    destruct (IH (S k) (attempted cfg v u a (attemptAfter k) w)) as [w' Hw'].
    exists w'. rewrite Hw'. simpl. do 2 f_equal. lia.
Qed.

Lemma main_mismatching cfg vs :
  Forall (fun v => mismatching cfg v = true) vs ->
  exists w,
    main cfg vs = Running (attemptAfter (length vs)) w
    /\ length (attempts (trace w)) = length vs
    /\ Forall (fun r => matched r = false) (attempts (trace w)).
Proof.
  intros Hvs.
  destruct (whileNotMatched_mismatching cfg vs 0
              (newPage (launch launchOptions)) Hvs) as [w Hw].
  exists w. rewrite main_finish.
  change (attemptAfter 0) with 0 in Hw. rewrite Hw. simpl.
  split; [done |].
  pose proof (main_attempts cfg vs) as Ha.
  rewrite main_finish, Hw in Ha.
  apply whileNotMatched_running in Hw as (_ & _ & Hlen).
  split; [simpl in Hlen; lia | done].
Qed.

(** Every iteration opens one more attempt, whatever the visit. *)
Lemma iteration_opens_attempt cfg v n w :
  match iteration cfg v n w with
  | Ok _ w' | Throw _ w' =>
      length (attempts (trace w')) = S (length (attempts (trace w)))
  end.
Proof.
  destruct (iteration cfg v n w) as [[b n'] w' | e w'] eqn:Hi.
  - apply iteration_ok in Hi as (_ & u & a & _ & _ & _ & _ & ->).
    destruct (attempted_facts cfg v u a n w) as (_ & _ & _ & _ & -> & _).
    reflexivity.
  - apply iteration_throw in Hi as (_ & _ & -> & _). reflexivity.
Qed.

Lemma mismatching_replicate cfg v k :
  mismatching cfg v = true ->
  Forall (fun v => mismatching cfg v = true) (replicate k v).
Proof. intros Hv. induction k; simpl; by constructor. Qed.

(** The requests of a run of one mismatching attempt. *)
Lemma sample_requests :
  requests (world (main config [assigning "Other"]))
  = [FormSubmit None (formFields config); PageLoad None (bookingUrl config)].
Proof. vm_compute. reflexivity. Qed.

(** ** The Latin-1 strings inside the UTF-16 strings *)








(** * The claims *)

(** ** Matching (line 54) *)



Ltac same_letters :=
  repeat split;
  first [ left; reflexivity
        | right; left; split; reflexivity
        | right; right; split; reflexivity ].


(** C1, as stated, fails: the pair of the specification that differs by
    a typo is rejected, and so is every pair that is not equal after
    trimming and lowercasing. *)
Lemma typo_pair_rejected :
  matches "Green Crescent Clinic" "Green Crscnt Clinic" = false
  /\ ~ (exists assigned target,
          toLowerCase (trim assigned) <> toLowerCase (trim target)
          /\ matches assigned target = true).
Proof.
  split; [reflexivity |].
  intros (a & t & Hne & Hm). by apply strictEq_true in Hm.
Qed.

(** C1, amended.  There is no fuzzy matching: whenever the exact match
    (equality after trimming and ignoring letter case) fails, the
    comparison of line 54 returns false.  So it does for the pair that
    differs by a typo and for the clearly dissimilar pair. *)
Theorem no_fuzzy_match (assigned target : string) :
  ~ Spec.exactMatch assigned target -> matches assigned target = false.
Proof.
  intros Hn. destruct (matches assigned target) eqn:Hm; [| done].
  exfalso. apply Hn. unfold matches in Hm. apply strictEq_true in Hm.
  exists (trim assigned), (trim target).
  split; [apply trim_trimmedTo |]. split; [apply trim_trimmedTo |].
  by apply sameIgnoringCase_toLowerCase.
Qed.

Lemma no_fuzzy_match_witness :
  matches "Green Crescent Clinic" "Green Crscnt Clinic" = false
  /\ matches "Green Crescent" "Red Cross" = false.
Proof.
  split; apply no_fuzzy_match;
    intros (a & t & Ha%trimmedTo_trim & Ht%trimmedTo_trim
              & Hs%sameIgnoringCase_toLowerCase);
    subst a t; vm_compute in Hs; discriminate Hs.
Defined.

(** ** The retry loop (lines 41-63) *)

(** C2, as stated, fails: no number bounds the attempts of the runs in
    which every attempt mismatches; with four mismatching visits the
    run has made four attempts and is still looping. *)
Lemma retries_unbounded :
  ~ (exists maxRetries : nat,
       forall vs,
         Forall (fun v => mismatching config v = true) vs ->
         (length (attempts (trace (world (main config vs)))) <= maxRetries)%nat)
  /\ exists w,
       main config (replicate 4 (assigning "Other")) = Running 4 w
       /\ length (attempts (trace w)) = 4%nat.
Proof.
  split.
  - intros [m H].
    assert (Forall (fun v => mismatching config v = true)
              (replicate (S m) (assigning "Other"))) as Hvs
      by by apply mismatching_replicate.
    specialize (H _ Hvs).
    destruct (main_mismatching config _ Hvs) as (w & Hw & Hlen & _).
    rewrite Hw in H. simpl in H. rewrite Hlen, length_replicate in H. lia.
  - destruct (main_mismatching config (replicate 4 (assigning "Other")))
      as (w & Hw & Hlen & _).
    { by apply mismatching_replicate. }
    rewrite length_replicate in Hw, Hlen.
    exists w. split; [exact Hw | exact Hlen].
Qed.

(** C2, amended.  For every run in which every attempt mismatches, the
    retry loop has no bound: after any number of mismatched attempts the
    run has produced exactly that many attempt results, none matched, it
    is still looping, and whatever the next visit brings a further
    attempt is made.  The counter is the number of attempts up to 2^53. *)
Theorem mismatches_never_end_the_loop (cfg : Config) (vs : list Visit) :
  Forall (fun v => mismatching cfg v = true) vs ->
  exists w,
    main cfg vs = Running (attemptAfter (length vs)) w
    /\ length (attempts (trace w)) = length vs
    /\ Forall (fun r => matched r = false) (attempts (trace w))
    /\ forall v,
         length (attempts (trace (world (main cfg (vs ++ [v])))))
         = S (length vs).
Proof.
  intros Hvs.
  destruct (main_mismatching cfg vs Hvs) as (w & Hw & Hlen & Hun).
  exists w. repeat split; [done | done | done |].
  intros v.
  rewrite (main_app cfg vs [v] _ w Hw), whileNotMatched_cons.
  pose proof (iteration_opens_attempt cfg v (attemptAfter (length vs)) w)
    as Hi.
  destruct (iteration cfg v _ w) as [[[] n'] w' | e w']; simpl; lia.
Qed.

Lemma mismatches_never_end_the_loop_witness :
  exists w,
    main config [assigning "Other"; withoutCenter] = Running 2 w
    /\ length (attempts (trace w)) = 2%nat.
Proof.
  destruct (mismatches_never_end_the_loop config
              [assigning "Other"; withoutCenter]) as (w & Hw & Hlen & _).
  { repeat constructor. }
  exists w. split; [exact Hw | exact Hlen].
Defined.

(** ** Sessions and proxies (lines 16-17) *)

(** The world in which the next attempt starts. *)
Lemma running_world cfg vs n w :
  main cfg vs = Running n w ->
  storage (page w) = storedAfter vs
  /\ sessionEvents (trace w) = [NewPage; Launch launchOptions]
  /\ egress w = None.
Proof.
  intros H. pose proof (main_steady cfg vs) as Hs. rewrite H in Hs.
  destruct Hs as (Hp & _ & _ & Hs).
  by apply main_running, whileNotMatched_running in H as (_ & -> & _).
Qed.

(** C3, as stated, fails: the session the second attempt starts from
    still holds the cookie the site set during the first attempt. *)
Lemma second_attempt_inherits_storage :
  exists n w,
    main config [assigning "Other"] = Running n w
    /\ storage (page w) !! "sessionid" = Some "abc"
    /\ storage (page w) <> ∅.
Proof.
  exists 1, (world (main config [assigning "Other"])).
  split; [vm_compute; reflexivity |].
  split; [vm_compute; reflexivity |].
  intros H. apply (f_equal (fun m => m !! "sessionid")) in H.
  vm_compute in H. discriminate H.
Qed.

(** C3, amended.  For every attempt after the first, the session used
    is the one browser and the one page opened before the loop; nothing
    closes or replaces them between attempts, and the attempt inherits
    all state of the prior attempts: what the page's browser context
    stores when the attempt starts is exactly what the site left there
    over the earlier visits. *)
Theorem one_session_for_all_attempts (cfg : Config) (vs : list Visit)
  (n : Z) (w : World) :
  main cfg vs = Running n w ->
  storage (page w) = storedAfter vs
  /\ sessionEvents (trace w) = [NewPage; Launch launchOptions]
  /\ forall rest,
       main cfg (vs ++ rest) = finish (whileNotMatched cfg rest false n w).
Proof.
  intros H.
  destruct (running_world cfg vs n w H) as (Hs & He & _).
  repeat split; [done | done |].
  intros rest. by apply main_app.
Qed.

Lemma one_session_for_all_attempts_witness :
  main config [assigning "Other"]
  = Running 1 (world (main config [assigning "Other"]))
  /\ storage (page (world (main config [assigning "Other"])))
     = storedAfter [assigning "Other"].
Proof.
  assert (main config [assigning "Other"]
          = Running 1 (world (main config [assigning "Other"]))) as H
    by (vm_compute; reflexivity).
  split; [exact H |].
  exact (proj1 (one_session_for_all_attempts _ _ _ _ H)).
Defined.

(** C4, as stated, fails: the requests of an attempt leave the browser
    through no proxy at all. *)
Lemma attempt_without_proxy :
  exists r,
    In r (requests (world (main config [assigning "Other"])))
    /\ via r = None.
Proof.
  exists (PageLoad None (bookingUrl config)).
  split; [| reflexivity].
  rewrite sample_requests. right. left. reflexivity.
Qed.

(** C4, amended.  For every run, no attempt is made through a proxy:
    the browser is launched once, with no proxy in its options, and
    every request of every attempt leaves it directly.  The script has
    no pool and no [acquire], so no endpoint, failed or not, is ever
    handed out. *)
Theorem no_proxy_in_any_attempt (cfg : Config) (vs : list Visit) :
  proxy launchOptions = None
  /\ egress (world (main cfg vs)) = None
  /\ Forall (fun r => via r = None) (requests (world (main cfg vs)))
  /\ sessionEvents (trace (world (main cfg vs)))
     = (if isCompleted (main cfg vs) then [Close] else [])
       ++ [NewPage; Launch launchOptions].
Proof.
  destruct (main_steady cfg vs) as (Hp & Hr & _ & He).
  repeat split; [done | | done].
  eapply Forall_impl; [exact Hr |]. by intros r [Hv _].
Qed.

(** ** The form (lines 19-36) *)

Lemma formFields_lookup cfg :
  formFields cfg !! Selector.passport = Some (passportNumber cfg)
  /\ formFields cfg !! Selector.first_name = Some (firstName cfg)
  /\ formFields cfg !! Selector.last_name = Some (lastName cfg)
  /\ formFields cfg !! Selector.dob = Some (dob cfg)
  /\ formFields cfg !! Selector.id_country = Some (country cfg)
  /\ formFields cfg !! Selector.id_city = Some (city cfg)
  /\ formFields cfg !! Selector.id_medical_center
     = Some (targetMedicalCenterId cfg).
Proof. repeat split; vm_compute; reflexivity. Qed.

Lemma submitted_form cfg vs p fields :
  In (FormSubmit p fields) (requests (world (main cfg vs))) ->
  fields = formFields cfg.
Proof.
  destruct (main_steady cfg vs) as (_ & Hr & _).
  rewrite List.Forall_forall in Hr. intros Hin.
  by destruct (Hr _ Hin) as [_ ->].
Qed.

(** C5, as stated, fails: the form submitted on the very first attempt,
    before anything has matched, carries the passport number. *)
Lemma passport_submitted_before_match :
  isCompleted (main config [assigning "Other"]) = false
  /\ exists fields,
       In (FormSubmit None fields)
          (requests (world (main config [assigning "Other"])))
       /\ fields !! Selector.passport = Some "YOUR_PASSPORT_NUMBER".
Proof.
  split; [vm_compute; reflexivity |].
  exists (formFields config).
  rewrite sample_requests.
  split; [left; reflexivity | vm_compute; reflexivity].
Qed.

(** C5, amended.  For every attempt, the one form the attempt submits
    is populated with the candidate-scoped fields (passport, first name,
    last name, date of birth) together with country, city and medical
    center; this happens on every submission, matched or not, and no
    field is left for a later step. *)
Theorem submission_carries_candidate_fields (cfg : Config)
  (vs : list Visit) (p : option Proxy) (fields : gmap string string) :
  In (FormSubmit p fields) (requests (world (main cfg vs))) ->
  fields = formFields cfg
  /\ fields !! Selector.passport = Some (passportNumber cfg)
  /\ fields !! Selector.first_name = Some (firstName cfg)
  /\ fields !! Selector.last_name = Some (lastName cfg)
  /\ fields !! Selector.dob = Some (dob cfg)
  /\ fields !! Selector.id_country = Some (country cfg)
  /\ fields !! Selector.id_city = Some (city cfg).
Proof.
  intros ->%submitted_form.
  destruct (formFields_lookup cfg) as (H1 & H2 & H3 & H4 & H5 & H6 & _).
  auto 10.
Qed.

Lemma submission_carries_candidate_fields_witness :
  In (FormSubmit None (formFields config))
     (requests (world (main config [assigning "Other"])))
  /\ formFields config !! Selector.passport = Some "YOUR_PASSPORT_NUMBER".
Proof.
  assert (In (FormSubmit None (formFields config))
            (requests (world (main config [assigning "Other"])))) as H.
  { rewrite sample_requests. left. reflexivity. }
  split; [exact H |].
  exact (proj1 (proj2 (submission_carries_candidate_fields _ _ _ _ H))).
Defined.

(** C10.  On every attempt the script selects the target center's id in
    the medical-center field right before it clicks submit, so every
    form it submits carries the target center's id in that field. *)
Theorem target_center_requested (cfg : Config) (vs : list Visit)
  (p : option Proxy) (fields : gmap string string) :
  In (FormSubmit p fields) (requests (world (main cfg vs))) ->
  fields !! Selector.id_medical_center = Some (targetMedicalCenterId cfg)
  /\ selectsBeforeSubmit cfg (trace (world (main cfg vs))).
Proof.
  intros ->%submitted_form. split.
  - apply formFields_lookup.
  - apply main_steady.
Qed.

Lemma target_center_requested_witness :
  In (FormSubmit None (formFields config))
     (requests (world (main config [assigning "Other"])))
  /\ formFields config !! Selector.id_medical_center = Some "10696".
Proof.
  assert (In (FormSubmit None (formFields config))
            (requests (world (main config [assigning "Other"])))) as H.
  { rewrite sample_requests. left. reflexivity. }
  split; [exact H |].
  exact (proj1 (target_center_requested _ _ _ _ H)).
Defined.

(** ** Failures inside an attempt (lines 35 and 47-52) *)

Lemma iteration_times_out cfg v n w :
  formWorks cfg v = true -> navigatesTo v = None ->
  iteration cfg v n w
  = Throw (TimeoutError (WaitForNavigation 15000))
      (waitElapsed cfg v (emitted (Log (LogAttempt (increment n))) w)).
Proof.
  intros (H1 & H2 & H3 & H4 & H5 & H6 & H7 & H8 & H9 & Hc)%formWorks_true Hu.
  unfold_script. unfold waitElapsed. reduce_world.
  rewrite H1. reduce_world. rewrite H2. reduce_world.
  rewrite H3. reduce_world. rewrite H4. reduce_world.
  rewrite H5. reduce_world. rewrite H6. reduce_world.
  rewrite H7. reduce_world. rewrite H8. reduce_world.
  rewrite H9. reduce_world.
  destruct (afterClick v); [| | done]; reduce_world; by rewrite Hu.
Qed.

Lemma iteration_null cfg v u n w :
  formWorks cfg v = true -> navigatesTo v = Some u ->
  extracted v = None ->
  iteration cfg v n w
  = Throw TypeError
      (emitted (TextContentOf Selector.assigned_center)
         (submitted cfg v u (emitted (Log (LogAttempt (increment n))) w))).
Proof.
  intros Hf Hu Ha.
  unfold iteration, log, call, bind at 1 2. reduce_world.
  rewrite (fillAndSubmitForm_works cfg v u) by done.
  unfold extracted in Ha. unfold_script.
  by destruct (textOf v Selector.assigned_center).
Qed.

(** C6.  The script does not do what the claim asks of an elapsed
    wait.  For every attempt in which the form goes through and the
    bounded wait for the server response (15000 ms, line 35) elapses,
    the timeout is not caught: the run ends there with that error,
    whatever visits would follow; the attempt is left without a result,
    nothing is logged after the call that timed out, and the page is
    the one the click left.  The failure of lines 48-52, in contrast,
    is caught and retried. *)
Theorem elapsed_wait_ends_the_run (cfg : Config) (vs : list Visit)
  (v : Visit) (rest : list Visit) (n : Z) (w : World) :
  main cfg vs = Running n w ->
  formWorks cfg v = true ->
  navigatesTo v = None ->
  exists w',
    main cfg (vs ++ v :: rest)
    = Crashed (TimeoutError (WaitForNavigation 15000)) w'
    /\ trace w' = formCalls cfg ++ Log (LogAttempt (increment n)) :: trace w
    /\ attempts (trace w') = unconcluded (increment n) :: attempts (trace w)
    /\ url (page w')
       = match afterClick v with
         | Lands u => u
         | _ => bookingUrl cfg
         end.
Proof.
  intros Hrun Hf Hu.
  rewrite (main_app cfg vs (v :: rest) n w Hrun), whileNotMatched_cons.
  rewrite iteration_times_out by done. simpl.
  eexists. split; [reflexivity |]. simpl.
  by destruct (afterClick v).
Qed.

(** The run on which the first wait elapses and the second visit would
    have assigned the target center. *)
Lemma timeout_ends_the_run :
  exists w',
    main config ([] ++ timingOut :: [assigning "BENGAL MEDICAL CENTER"])
    = Crashed (TimeoutError (WaitForNavigation 15000)) w'
    /\ attempts (trace w') = [unconcluded 1]
    /\ url (page w') = "https://wafid.com/appointment/1/pay/".
Proof.
  destruct (elapsed_wait_ends_the_run config [] timingOut
              [assigning "BENGAL MEDICAL CENTER"] 0
              (newPage (launch launchOptions)) eq_refl eq_refl eq_refl)
    as (w' & H1 & _ & H3 & H4).
  exists w'. split; [exact H1 |]. split; [exact H3 | exact H4].
Defined.

(** C7.  For every attempt, the value compared with the target is the
    one extracted from that attempt's own page: the text the page shows
    or, when the extraction fails, the empty string to which line 47
    resets [assignedCenter].  The earlier visits [vs] have no part in
    the decision.  (When [textContent] resolves to [null] nothing is
    compared: line 54 throws.) *)
Theorem compared_value_is_live (cfg : Config) (vs : list Visit) (v : Visit)
  (u : string) (n : Z) (w : World) :
  main cfg vs = Running n w ->
  formWorks cfg v = true ->
  navigatesTo v = Some u ->
  (forall s, textOf v Selector.assigned_center = Text s ->
             extracted v = Some s)
  /\ (textOf v Selector.assigned_center = NoElement ->
      extracted v = Some EmptyString)
  /\ match extracted v with
     | Some a =>
         let w' := attempted cfg v u a n w in
         main cfg (vs ++ [v])
         = (if matches a (targetMedicalCenterName cfg)
            then Completed (close w')
            else Running (increment n) w')
         /\ (matches a (targetMedicalCenterName cfg) = false ->
             exists older,
               trace w'
               = WaitForTimeout
                 :: Log (LogMismatch a (targetMedicalCenterName cfg))
                 :: older)
     | None => exists w', main cfg (vs ++ [v]) = Crashed TypeError w'
     end.
Proof.
  intros Hrun Hf Hu. split; [| split].
  - unfold extracted. by intros s ->.
  - unfold extracted. by intros ->.
  - rewrite (main_app cfg vs [v] n w Hrun), whileNotMatched_cons.
    destruct (extracted v) as [a |] eqn:Ha.
    + rewrite (iteration_works cfg v u a) by done. cbv zeta. split.
      * by destruct (matches a (targetMedicalCenterName cfg)).
      * intros Hm. unfold attempted, decided. rewrite Hm. by eexists.
    + rewrite (iteration_null cfg v u) by done. by eexists.
Qed.

Lemma compared_value_is_live_witness :
  exists w,
    main config [assigning "BENGAL MEDICAL CENTRE"; withoutCenter]
    = Running 2 w
    /\ exists older,
         trace w
         = WaitForTimeout
           :: Log (LogMismatch EmptyString "BENGAL MEDICAL CENTER") :: older.
Proof.
  assert (main config [assigning "BENGAL MEDICAL CENTRE"]
          = Running 1 (world (main config [assigning "BENGAL MEDICAL CENTRE"])))
    as Hrun by (vm_compute; reflexivity).
  assert (formWorks config withoutCenter = true) as Hf by reflexivity.
  assert (navigatesTo withoutCenter
          = Some "https://wafid.com/appointment/1/pay/") as Hu by reflexivity.
  destruct (compared_value_is_live config _ withoutCenter _ _ _ Hrun Hf Hu)
    as (_ & _ & H1 & H2).
  eexists. split; [exact H1 |]. by apply H2.
Defined.

(** ** The end of a run (lines 54-65) *)




(** * Further properties of the script *)

(** ** The comparison of line 54 *)

Section MatchFacts.

Import Spec.

Lemma append_assoc (a b c : string) : (a +:+ b) +:+ c = a +:+ b +:+ c.
Proof.
  induction a as [| x a IH]; rewrite ?append_nil, ?append_cons; [done |].
  by rewrite IH.
Qed.

Lemma allWhite_app l r : allWhite l -> allWhite r -> allWhite (l +:+ r).
Proof.
  induction l as [| c l IH]; rewrite ?append_nil, ?append_cons; [done |].
  simpl. intros [Hc Hl] Hr. auto.
Qed.

Lemma allWhite_app_inv l r : allWhite (l +:+ r) -> allWhite l /\ allWhite r.
Proof.
  induction l as [| c l IH]; rewrite ?append_nil, ?append_cons; [done |].
  simpl. intros [Hc Hlr]. destruct (IH Hlr). auto.
Qed.

Lemma trim_all_white s : allWhite s -> trim s = EmptyString.
Proof. intros H. unfold trim. by rewrite trimStart_all_white. Qed.

Lemma trim_empty_inv s : trim s = EmptyString -> allWhite s.
Proof.
  intros H. destruct (trim_trimmedTo s) as (l & r & Hs & Hl & Hr & _).
  rewrite H, append_nil in Hs. rewrite Hs. by apply allWhite_app.
Qed.

Lemma trim_padded l s r :
  allWhite l -> allWhite r -> trim (l +:+ s +:+ r) = trim s.
Proof.
  intros Hl Hr.
  destruct (trim_trimmedTo s) as (l' & r' & Hs & Hl' & Hr' & Hc & He).
  apply trimmedTo_trim. exists (l +:+ l'), (r' +:+ r).
  split; [| auto using allWhite_app].
  rewrite Hs at 1. by rewrite !append_assoc.
Qed.

Lemma toLowerCase_empty_inv s : toLowerCase s = EmptyString -> s = EmptyString.
Proof. by destruct s. Qed.

Lemma upper_not_white c : isUpper c = true -> isWhiteSpace c = false.
Proof.
  intros Hc%isUpper_range. unfold isWhiteSpace. cbv zeta.
  rewrite !orb_false_iff, andb_false_iff, !N.leb_gt, !N.eqb_neq. lia.
Qed.

Lemma lower_not_white c d :
  isUpper c = true -> code d = (code c + 32)%N -> isWhiteSpace d = false.
Proof.
  intros Hc%isUpper_range Hd. unfold isWhiteSpace. cbv zeta. rewrite Hd.
  rewrite !orb_false_iff, andb_false_iff, !N.leb_gt, !N.eqb_neq. lia.
Qed.

Lemma caseVariant_white c d : caseVariant c d -> isWhiteSpace c = isWhiteSpace d.
Proof.
  intros [-> | [[Hc Hd] | [Hd Hc]]]; [done | |].
  - by rewrite (upper_not_white c), (lower_not_white c d).
  - by rewrite (upper_not_white d), (lower_not_white d c).
Qed.

Lemma trimStart_same s t :
  sameIgnoringCase s t -> sameIgnoringCase (trimStart s) (trimStart t).
Proof.
  revert t. induction s as [| c s IH]; intros [| d t]; simpl; try done.
  intros [Hcd Hst]. rewrite <- (caseVariant_white c d Hcd).
  destruct (isWhiteSpace c); [auto | by simpl].
Qed.

Lemma trimEnd_same s t :
  sameIgnoringCase s t -> sameIgnoringCase (trimEnd s) (trimEnd t).
Proof.
  revert t. induction s as [| c s IH]; intros [| d t]; simpl; try done.
  intros [Hcd Hst]. rewrite <- (caseVariant_white c d Hcd).
  specialize (IH t Hst).
  destruct (trimEnd s), (trimEnd t); try done;
    destruct (isWhiteSpace c); by simpl.
Qed.

Lemma trim_same s t : sameIgnoringCase s t -> sameIgnoringCase (trim s) (trim t).
Proof. intros H. by apply trimEnd_same, trimStart_same. Qed.

End MatchFacts.

(** X1.  The comparison of line 54 is an equivalence: every string
    matches itself, the order of the assigned and the target name does
    not matter, and two names that both match a third match each other. *)
Theorem matches_equivalence :
  (forall s, matches s s = true)
  /\ (forall a t, matches a t = matches t a)
  /\ (forall a b c,
        matches a b = true -> matches b c = true -> matches a c = true).
Proof.
  unfold matches, strictEq. split; [| split].
  - intros s. apply String.eqb_refl.
  - intros a t. apply String.eqb_sym.
  - intros a b c Hab%String.eqb_eq Hbc%String.eqb_eq.
    apply String.eqb_eq. congruence.
Qed.

Lemma matches_equivalence_witness :
  matches "Bengal Medical Center" " BENGAL MEDICAL CENTER" = true.
Proof.
  apply (proj2 (proj2 matches_equivalence)
           "Bengal Medical Center" "bengal medical center ");
    vm_compute; reflexivity.
Defined.

(** X2.  Whitespace put before or after either name never changes the
    outcome of the comparison. *)
Theorem matches_ignores_padding (l r assigned target : string) :
  Spec.allWhite l -> Spec.allWhite r ->
  matches (l +:+ assigned +:+ r) target = matches assigned target
  /\ matches assigned (l +:+ target +:+ r) = matches assigned target.
Proof.
  intros Hl Hr. unfold matches. by rewrite !trim_padded.
Qed.

Lemma matches_ignores_padding_witness :
  matches (" " +:+ "Other" +:+ "  ") "BENGAL MEDICAL CENTER"
  = matches "Other" "BENGAL MEDICAL CENTER".
Proof.
  refine (proj1 (matches_ignores_padding " " "  " "Other"
                   "BENGAL MEDICAL CENTER" _ _)); repeat split.
Defined.

(** X3.  Writing letters of the assigned name in the other case never
    changes the outcome of the comparison. *)
Theorem matches_ignores_case (assigned assigned' target : string) :
  Spec.sameIgnoringCase assigned assigned' ->
  matches assigned' target = matches assigned target.
Proof.
  intros H%trim_same%sameIgnoringCase_toLowerCase.
  unfold matches. by rewrite H.
Qed.

Lemma matches_ignores_case_witness :
  matches "bengal" "BENGAL MEDICAL CENTER"
  = matches "Bengal" "BENGAL MEDICAL CENTER".
Proof.
  apply matches_ignores_case. same_letters.
Defined.

(** X4.  Against a target name that is empty or whitespace only, the
    comparison accepts exactly the assigned names that are empty or
    whitespace only. *)
Theorem matches_blank_target (assigned target : string) :
  Spec.allWhite target ->
  (matches assigned target = true <-> Spec.allWhite assigned).
Proof.
  intros Ht. unfold matches. rewrite (trim_all_white target Ht).
  rewrite strictEq_true. simpl. split.
  - intros H%toLowerCase_empty_inv. by apply trim_empty_inv.
  - intros Ha. by rewrite trim_all_white.
Qed.

Lemma matches_blank_target_witness :
  matches EmptyString "  " = true.
Proof.
  apply (proj2 (matches_blank_target EmptyString "  " ltac:(repeat split))).
  exact I.
Defined.

(** ** Attempts of a run *)

Lemma world_finish o :
  trace (world (finish o))
  = (if isCompleted o then [Close] else []) ++ trace (world o)
  /\ requests (world (finish o)) = requests (world o)
  /\ page (world (finish o)) = page (world o).
Proof. by destruct o. Qed.

Lemma iteration_number cfg v n w :
  match iteration cfg v n w with
  | Ok (_, n') w' =>
      n' = increment n
      /\ map attemptNumber (attempts (trace w'))
         = increment n :: map attemptNumber (attempts (trace w))
  | Throw _ w' =>
      map attemptNumber (attempts (trace w'))
      = increment n :: map attemptNumber (attempts (trace w))
  end.
Proof.
  destruct (iteration cfg v n w) as [[b n'] w' | e w'] eqn:Hi.
  - apply iteration_ok in Hi as (_ & u & a & _ & _ & _ & -> & ->).
    destruct (attempted_facts cfg v u a n w) as (_ & _ & _ & _ & -> & _).
    done.
  - by apply iteration_throw in Hi as (_ & _ & -> & _).
Qed.

Lemma whileNotMatched_numbers cfg vs k w :
  map attemptNumber (attempts (trace w)) = countdown k ->
  exists k',
    (k <= k' <= k + length vs)%nat
    /\ map attemptNumber
         (attempts (trace (world
            (whileNotMatched cfg vs false (attemptAfter k) w))))
       = countdown k'.
Proof.
  revert k w. induction vs as [| v vs IH]; intros k w Hw.
  - exists k. simpl. split; [lia | done].
  - rewrite whileNotMatched_cons.
    pose proof (iteration_number cfg v (attemptAfter k) w) as Hi.
    rewrite increment_attemptAfter, Hw in Hi.
    destruct (iteration cfg v (attemptAfter k) w) as [[[] n'] w' | e w'].
    + exists (S k). simpl. split; [lia | apply Hi].
    + destruct Hi as [-> Hi].
      destruct (IH (S k) w' Hi) as (k' & Hk & Hn).
      exists k'. simpl in *. split; [lia | done].
    + exists (S k). simpl. split; [lia | done].
Qed.

Lemma countdown_small k :
  Z.of_nat k <= 2 ^ 53 -> countdown k = map Z.of_nat (rev (seq 1 k)).
Proof.
  induction k as [| k IH]; [done |]. intros Hk.
  rewrite seq_S, rev_app_distr. simpl.
  rewrite IH by lia. f_equal. unfold attemptAfter. lia.
Qed.

(** X5.  The attempt numbers printed by line 43 are consecutive: over a
    run of [k] attempts they are 1, 2, ..., k (as long as k stays below
    2^53, where the counter stops growing), one per visit used. *)
Theorem attempts_numbered_consecutively (cfg : Config) (vs : list Visit) :
  exists k,
    (k <= length vs)%nat
    /\ map attemptNumber (attempts (trace (world (main cfg vs))))
       = countdown k
    /\ (Z.of_nat k <= 2 ^ 53 ->
        rev (map attemptNumber (attempts (trace (world (main cfg vs)))))
        = map Z.of_nat (seq 1 k)).
Proof.
  destruct (whileNotMatched_numbers cfg vs 0
              (newPage (launch launchOptions)) eq_refl) as (k & Hk & Hn).
  change (attemptAfter 0) with 0 in Hn.
  assert (attempts (trace (world (main cfg vs)))
          = attempts (trace (world (whileNotMatched cfg vs false 0
                                      (newPage (launch launchOptions))))))
    as Hm.
  { rewrite main_finish.
    by destruct (whileNotMatched cfg vs false 0 _). }
  exists k. rewrite Hm, Hn. split; [lia |]. split; [done |].
  intros Hs. by rewrite countdown_small, map_rev, rev_involutive.
Qed.

Lemma attempts_numbered_consecutively_witness :
  exists k,
    rev (map attemptNumber
           (attempts (trace (world
              (main config [assigning "Other"; timingOut])))))
    = map Z.of_nat (seq 1 k).
Proof.
  destruct (attempts_numbered_consecutively config
              [assigning "Other"; timingOut]) as (k & Hk & _ & H).
  exists k. apply H. simpl in Hk.
  change (2 ^ 53) with 9007199254740992. lia.
Defined.

Lemma iteration_paused cfg v n w :
  afterPause (trace w) -> pausedBeforeAttempts (trace w) ->
  match iteration cfg v n w with
  | Ok (b, _) w' =>
      pausedBeforeAttempts (trace w') /\ (b = false -> afterPause (trace w'))
  | Throw _ w' => pausedBeforeAttempts (trace w')
  end.
Proof.
  intros Ha Hp.
  destruct (iteration cfg v n w) as [[b n'] w' | e w'] eqn:Hi.
  - apply iteration_ok in Hi as (_ & u & a & _ & _ & -> & _ & ->).
    unfold attempted, decided, afterExtraction.
    destruct (textOf v Selector.assigned_center),
      (matches a (targetMedicalCenterName cfg)); simpl; by auto.
  - revert Hi. unfold_script. intros H.
    scrutinize H; injection H as <- <-; simpl; by auto.
Qed.

Lemma whileNotMatched_paused cfg vs n w :
  afterPause (trace w) -> pausedBeforeAttempts (trace w) ->
  pausedBeforeAttempts (trace (world (whileNotMatched cfg vs false n w))).
Proof.
  revert n w. induction vs as [| v vs IH]; intros n w Ha Hp; [done |].
  rewrite whileNotMatched_cons.
  pose proof (iteration_paused cfg v n w Ha Hp) as Hi.
  destruct (iteration cfg v n w) as [[[] n'] w' | e w']; simpl;
    [apply Hi | | done].
  destruct Hi as [Hp' Ha']. auto.
Qed.

(** X6.  No attempt starts without a pause: in every run, what comes
    right before the heading of an attempt is either the opening of the
    page (first attempt) or the wait of line 61 that follows a
    mismatch. *)
Theorem attempts_are_paced (cfg : Config) (vs : list Visit) :
  pausedBeforeAttempts (trace (world (main cfg vs))).
Proof.
  rewrite main_finish.
  pose proof (whileNotMatched_paused cfg vs 0
                (newPage (launch launchOptions)) I I) as H.
  by destruct (whileNotMatched cfg vs false 0 _).
Qed.

Lemma attemptRequests_shift cfg p k rs :
  attemptRequests cfg p k
  ++ FormSubmit p (formFields cfg) :: PageLoad p (bookingUrl cfg) :: rs
  = attemptRequests cfg p (S k) ++ rs.
Proof.
  induction k as [| k IH]; [done |].
  change (attemptRequests cfg p (S k))
    with (FormSubmit p (formFields cfg) :: PageLoad p (bookingUrl cfg)
          :: attemptRequests cfg p k) at 1.
  rewrite <- !app_comm_cons, IH. reflexivity.
Qed.

Lemma whileNotMatched_requests cfg vs n w n' w' :
  whileNotMatched cfg vs false n w = Running n' w' ->
  egress w' = egress w
  /\ requests w' = attemptRequests cfg (egress w) (length vs) ++ requests w.
Proof.
  revert n w. induction vs as [| v vs IH]; intros n w.
  - by intros [= <- <-].
  - rewrite whileNotMatched_cons.
    destruct (iteration cfg v n w) as [[[] n1] w1 | e w1] eqn:Hi;
      [done | | done].
    intros (He & Hr)%IH.
    apply iteration_ok in Hi as (_ & u & a & _ & _ & _ & _ & ->).
    destruct (attempted_facts cfg v u a n w) as (He' & Hr' & _).
    rewrite He' in He, Hr. split; [done |].
    rewrite Hr, Hr'. apply attemptRequests_shift.
Qed.

(** X7.  While the loop is running, every attempt made so far has sent
    exactly two requests, the load of the booking page and then the one
    form, both without a proxy and the same on every attempt. *)
Theorem two_requests_per_attempt (cfg : Config) (vs : list Visit) (n : Z)
  (w : World) :
  main cfg vs = Running n w ->
  requests w = attemptRequests cfg None (length vs).
Proof.
  intros (_ & H)%main_running%whileNotMatched_requests.
  rewrite H. simpl. apply app_nil_r.
Qed.

Lemma two_requests_per_attempt_witness :
  requests (world (main config [assigning "Other"; withoutCenter]))
  = attemptRequests config None 2.
Proof.
  apply (two_requests_per_attempt config [assigning "Other"; withoutCenter] 2).
  vm_compute. reflexivity.
Defined.

(** ** Failures and the end of a run *)

Ltac answers_in H :=
  repeat match goal with
         | Hb : ?x = _ |- _ =>
             tryif constr_eq Hb H then fail
             else lazymatch type of H with
                  | context [x] => rewrite Hb in H
                  end
         end.

(** When the form does not work the iteration throws the error of the
    first call that fails, right at that call. *)
Lemma iteration_form_fails cfg v n w :
  formWorks cfg v = false ->
  exists call w',
    firstFailure cfg v = Some call
    /\ iteration cfg v n w = Throw (errorOf call) w'
    /\ hd_error (trace w') = Some call
    /\ requests w'
       = formSentBefore cfg v (egress w) call
         ++ PageLoad (egress w) (bookingUrl cfg) :: requests w.
Proof.
  intros Hf.
  destruct (iteration cfg v n w) as [[b n'] w' | e w'] eqn:Hi.
  - apply iteration_ok in Hi as [Hf' _]. congruence.
  - revert Hi. unfold_script. unfold formWorks in Hf. intros H.
    scrutinize H; injection H as <- <-; answers_in Hf;
      try discriminate Hf.
    all: eexists _, _; split;
      [unfold firstFailure, formSteps; use_answers; reflexivity |].
    all: split; [reflexivity |]; split; [reflexivity |].
    all: unfold formSentBefore; use_answers; reflexivity.
Qed.

(** X8.  When the booking page does not load, one of the seven fields
    or the submit button does not resolve, or the click's own wait for
    the navigation times out, the attempt ends the run with the error of
    the first call that fails, and that call is the last thing the
    script did.  The page load has been requested; the form has been
    sent only when it is the click that timed out after pressing the
    button.  The attempt is left without a result. *)
Theorem broken_form_ends_the_run (cfg : Config) (vs : list Visit)
  (v : Visit) (n : Z) (w : World) :
  main cfg vs = Running n w ->
  formWorks cfg v = false ->
  exists call w',
    firstFailure cfg v = Some call
    /\ main cfg (vs ++ [v]) = Crashed (errorOf call) w'
    /\ hd_error (trace w') = Some call
    /\ requests w'
       = formSentBefore cfg v None call
         ++ PageLoad None (bookingUrl cfg) :: requests w
    /\ attempts (trace w') = unconcluded (increment n) :: attempts (trace w).
Proof.
  intros Hrun Hf.
  destruct (running_world cfg vs n w Hrun) as (_ & _ & Hp).
  destruct (iteration_form_fails cfg v n w Hf)
    as (call & w' & Hc & Hi & Hh & Hr).
  rewrite (main_app cfg vs [v] n w Hrun), whileNotMatched_cons, Hi.
  exists call, w'. rewrite Hp in Hr.
  apply iteration_throw in Hi as (_ & _ & Ha & _).
  by repeat split.
Qed.

Lemma broken_form_ends_the_run_witness :
  (exists w',
     main config ([] ++ [centerNotOffered])
     = Crashed (TimeoutError (SelectOption "#id_medical_center" "10696")) w'
     /\ requests w' = [PageLoad None (bookingUrl config)])
  /\ (exists w',
        main config ([] ++ [clickHangs])
        = Crashed (TimeoutError (Click Selector.submit)) w'
        /\ requests w'
           = [FormSubmit None (formFields config);
              PageLoad None (bookingUrl config)]).
Proof.
  split.
  - destruct (broken_form_ends_the_run config [] centerNotOffered 0
                (newPage (launch launchOptions)) eq_refl)
      as (call & w' & H1 & H2 & _ & H4 & _).
    { vm_compute. reflexivity. }
    vm_compute in H1. injection H1 as <-.
    exists w'. split; [exact H2 | exact H4].
  - destruct (broken_form_ends_the_run config [] clickHangs 0
                (newPage (launch launchOptions)) eq_refl)
      as (call & w' & H1 & H2 & _ & H4 & _).
    { vm_compute. reflexivity. }
    vm_compute in H1. injection H1 as <-.
    exists w'. split; [exact H2 | exact H4].
Defined.

Lemma matches_empty_blank t :
  matches EmptyString t = true <-> Spec.allWhite t.
Proof.
  unfold matches. rewrite strictEq_true. simpl. split.
  - intros H. symmetry in H.
    by apply trim_empty_inv, toLowerCase_empty_inv.
  - intros H. by rewrite trim_all_white.
Qed.

(** X9.  When the assigned center cannot be read from the page, line 51
    logs it and the empty string is compared: the attempt counts as a
    match, and completes the run with the URL of the page, exactly when
    the configured target name is empty or whitespace only; with any
    other target name the mismatch is logged and the loop goes on. *)
Theorem failed_extraction_outcome (cfg : Config) (vs : list Visit)
  (v : Visit) (u : string) (n : Z) (w : World) :
  main cfg vs = Running n w ->
  formWorks cfg v = true ->
  navigatesTo v = Some u ->
  textOf v Selector.assigned_center = NoElement ->
  (Spec.allWhite (targetMedicalCenterName cfg) ->
   exists w' older,
     main cfg (vs ++ [v]) = Completed w'
     /\ trace w'
        = Close :: Log (LogMatched u) :: Log LogCouldNotFind :: older)
  /\ (~ Spec.allWhite (targetMedicalCenterName cfg) ->
      exists w' older,
        main cfg (vs ++ [v]) = Running (increment n) w'
        /\ trace w'
           = WaitForTimeout
             :: Log (LogMismatch EmptyString (targetMedicalCenterName cfg))
             :: Log LogCouldNotFind :: older).
Proof.
  intros Hrun Hf Hu Ht.
  assert (extracted v = Some EmptyString) as Ha
    by (unfold extracted; by rewrite Ht).
  rewrite (main_app cfg vs [v] n w Hrun), whileNotMatched_cons.
  rewrite (iteration_works cfg v u EmptyString) by done.
  unfold attempted, decided, afterExtraction. rewrite Ht.
  split; intros Hb.
  - apply matches_empty_blank in Hb. rewrite Hb. simpl. by eexists _, _.
  - destruct (matches EmptyString (targetMedicalCenterName cfg)) eqn:Hm.
    + by apply matches_empty_blank in Hm.
    + simpl. by eexists _, _.
Qed.

Lemma failed_extraction_outcome_witness :
  (exists w' older,
     main blankTarget ([] ++ [withoutCenter]) = Completed w'
     /\ trace w'
        = Close :: Log (LogMatched "https://wafid.com/appointment/1/pay/")
          :: Log LogCouldNotFind :: older)
  /\ (exists w' older,
        main config ([] ++ [withoutCenter]) = Running (increment 0) w'
        /\ trace w'
           = WaitForTimeout
             :: Log (LogMismatch EmptyString "BENGAL MEDICAL CENTER")
             :: Log LogCouldNotFind :: older).
Proof.
  split.
  - apply (proj1 (failed_extraction_outcome blankTarget [] withoutCenter
                    "https://wafid.com/appointment/1/pay/" 0
                    (newPage (launch launchOptions))
                    eq_refl eq_refl eq_refl eq_refl)).
    repeat split.
  - apply (proj2 (failed_extraction_outcome config [] withoutCenter
                    "https://wafid.com/appointment/1/pay/" 0
                    (newPage (launch launchOptions))
                    eq_refl eq_refl eq_refl eq_refl)).
    intros [H _]. vm_compute in H. discriminate H.
Defined.

Lemma whileNotMatched_completed cfg vs n w w' :
  whileNotMatched cfg vs false n w = Completed w' ->
  exists v older,
    In v vs /\ navigatesTo v = Some (url (page w'))
    /\ trace w' = Log (LogMatched (url (page w'))) :: older
    /\ hd_error older
       <> Some WaitForTimeout.
Proof.
  revert n w. induction vs as [| v vs IH]; intros n w; [done |].
  rewrite whileNotMatched_cons.
  destruct (iteration cfg v n w) as [[[] n1] w1 | e w1] eqn:Hi; [| | done].
  - intros [= <-].
    apply iteration_ok in Hi as (_ & u & a & Hu & _ & Hm & _ & ->).
    exists v. unfold attempted, decided, afterExtraction.
    rewrite <- Hm.
    destruct (textOf v Selector.assigned_center); simpl;
      eexists; (split; [by left |]); by repeat split.
  - intros (v' & older & Hv & H)%IH. exists v', older. split; [by right | done].
Qed.

(** X10.  A completed run ends with the two steps of lines 57 and 65
    and nothing else: the line printing the payment URL, which is the
    URL of the page and the one the browser reached on a visit of the
    run, and then the closing of the browser; no wait of line 61 comes
    between the extraction and that line. *)
Theorem completed_run_prints_url_and_closes (cfg : Config)
  (vs : list Visit) (w : World) :
  main cfg vs = Completed w ->
  exists v older,
    In v vs /\ navigatesTo v = Some (url (page w))
    /\ trace w = Close :: Log (LogMatched (url (page w))) :: older
    /\ hd_error older <> Some WaitForTimeout.
Proof.
  rewrite main_finish.
  destruct (whileNotMatched cfg vs false 0 _) as [w' | |] eqn:Hl;
    [| done | done].
  intros [= <-].
  apply whileNotMatched_completed in Hl as (v & older & Hv & Hu & Ht & Hh).
  exists v, older. simpl. by rewrite Ht.
Qed.

Lemma completed_run_prints_url_and_closes_witness :
  exists v older,
    In v [assigning "Other"; assigning "bengal medical center"]
    /\ trace (world (main config
                [assigning "Other"; assigning "bengal medical center"]))
       = Close :: Log (LogMatched "https://wafid.com/appointment/1/pay/")
         :: older.
Proof.
  assert (main config [assigning "Other"; assigning "bengal medical center"]
          = Completed (world (main config
              [assigning "Other"; assigning "bengal medical center"]))) as H
    by (vm_compute; reflexivity).
  destruct (completed_run_prints_url_and_closes _ _ _ H)
    as (v & older & Hv & _ & Ht & _).
  exists v, older. split; [exact Hv |].
  rewrite Ht. vm_compute. reflexivity.
Defined.
